(** * Longitudinal software-quality metrics: the per-commit aggregation
      pipeline of [analyze_repository.py]

    A shallow embedding of [calculate_entropy], the [measure_*] adapters and
    [analyze_repository], followed by the properties of the running
    aggregator and of the dataset assembly.

    Modelling conventions.
    - Python [int] is [Z].  In the pipeline a Python [float] is read as a
      real number ([R]): rounding, overflow and underflow are left out, the
      division by zero and the domain error of [math.log2] are kept.  That
      reading serves the statements that do not depend on it; what
      [calculate_entropy] returns and raises on binary64 values is the
      subject of the module [Binary64].
    - Python exceptions are the [Raise] case of [result].
    - [dict], [defaultdict], [Counter] are [gmap]s; [set] is [gset].
    - The libraries the code calls (GitPython, radon, lizard, [re],
      [os.path], [datetime], pandas) are collaborators: they appear as the
      fields of [Env], of [Commit], and as the class [SortValues]. *)

From Stdlib Require Import Reals Lra.
From Stdlib Require SpecFloat.
From stdpp Require Import gmap strings list fin_maps sorting.

Local Open Scope Z_scope.

(** ** Exceptions *)

Inductive exn : Type :=
  | ZeroDivisionError
  | ValueError
  | KeyError
  | SyntaxError
  | OverflowError
  | OtherError.

Inductive result (A : Type) : Type :=
  | Ok (a : A)
  | Raise (e : exn).
Arguments Ok {A} a.
Arguments Raise {A} e.

(** Sequencing: an exception raised by the first computation propagates. *)
#[global] Instance result_bind : MBind result := λ A B k m,
  match m with
  | Ok a => k a
  | Raise e => Raise e
  end.
#[global] Instance result_ret : MRet result := λ A a, Ok a.

(** ** Python arithmetic *)

(** [sum(xs)] over integers: a left fold from [0]. *)
Definition py_sum (xs : list Z) : Z := foldl Z.add 0 xs.

(** [a / b] on two [int]s, read in the reals: true division,
    [ZeroDivisionError] when [b] is 0.  The rounded quotient is
    [Binary64.py_truediv]. *)
Definition py_truediv (a b : Z) : result R :=
  if b =? 0 then Raise ZeroDivisionError else Ok (IZR a / IZR b)%R.

(** [math.log2(x)], read in the reals: [ValueError] (math domain error)
    unless [x] is positive. *)
Definition math_log2 (x : R) : result R :=
  match Rlt_dec 0 x with
  | left _ => Ok (ln x / ln 2)%R
  | right _ => Raise ValueError
  end.

(** [sum(f(x) for x in xs)]: left fold from [0]; the first exception raised
    by the generator ends the sum. *)
Fixpoint py_sum_gen {A} (f : A → result R) (acc : R) (xs : list A) : result R :=
  match xs with
  | [] => Ok acc
  | x :: xs' => v ← f x ; py_sum_gen f (acc + v)%R xs'
  end.

(** ** [calculate_entropy] *)

(** [change_counts.values()] *)
Definition dict_values {V} (d : gmap string V) : list V := (map_to_list d).*2.

(** One term of the generator: [(count / total) * math.log2(count / total)]. *)
Definition entropy_term (total count : Z) : result R :=
  p ← py_truediv count total ;
  q ← py_truediv count total ;
  l ← math_log2 q ;
  Ok (p * l)%R.

(** Lines 40-48, read in the reals; [Binary64.calculate_entropy] is the
    same function on binary64 values. *)
Definition calculate_entropy (change_counts : gmap string Z) : result R :=
  let total := py_sum (dict_values change_counts) in
  if total =? 0 then Ok 0%R
  else
    s ← py_sum_gen (entropy_term total) 0%R (dict_values change_counts) ;
    Ok (- s)%R.

(** ** Data model *)

(** One entry of [commit.stats.files]. *)
Record FileStat := { insertions : Z; deletions : Z }.

(** A commit as GitPython presents it.  [stats_files] is the dict
    [commit.stats.files]; [blob_source file] is
    [(commit.tree / file).data_stream.read().decode("utf-8", errors="ignore")],
    which raises when the path is not in the commit's tree.  The loop over
    the dict visits each key once; the order of the visits does not show in
    the integer sums nor, floats being read as reals, in the real ones. *)
Record Commit := {
  hexsha : string;
  committed_date : Z;
  author_email : string;
  stats_files : gmap string FileStat;
  blob_source : string → result string;
}.

(** One row of the output: the dict appended to [data]. *)
Record CommitMetricRecord := {
  commit_hash : string;
  commit_date : Z;
  author : string;
  files_changed : Z;
  lines_added : Z;
  lines_deleted : Z;
  total_cyclomatic_complexity : Z;
  total_maintainability_index : R;
  total_cohesion_metric_lcom : Z;
  total_coupling_metric_imports : Z;
  code_entropy : R;
  commit_frequency_by_author : Z;
  unique_authors_per_file_avg : R;
}.

Definition record_keys : list string :=
  ["commit_hash"; "commit_date"; "author"; "files_changed"; "lines_added";
   "lines_deleted"; "total_cyclomatic_complexity";
   "total_maintainability_index"; "total_cohesion_metric_lcom";
   "total_coupling_metric_imports"; "code_entropy";
   "commit_frequency_by_author"; "unique_authors_per_file_avg"].

(** The library functions the pipeline calls.  A [datetime] is represented
    by an integer that orders it. *)
Record Env := {
  (** [datetime.now() - timedelta(days=365)] *)
  one_year_ago : Z;
  (** [datetime.fromtimestamp] *)
  fromtimestamp : Z → result Z;
  (** [os.path.splitext(file)[1]] *)
  splitext_ext : string → string;
  (** [c.complexity for c in radon.complexity.cc_visit(source)] *)
  cc_visit : string → result (list Z);
  (** [func.cyclomatic_complexity for func in
       lizard.analyze_file.analyze_source_code("", source).function_list] *)
  lizard_function_list : string → result (list Z);
  (** [radon.metrics.mi_visit(source, False)['mi']] *)
  mi_visit_mi : string → result R;
  (** [re.findall(r'\bimport\b|\bfrom\b', source)] *)
  re_findall_imports : string → list string;
}.

(** The per-commit sums (the local variables reset at lines 148-154). *)
Record CommitSums := {
  churn_add : Z;
  churn_del : Z;
  file_count : Z;
  complexity_total : Z;
  mi_total : R;
  lcom_total : Z;
  import_count_total : Z;
}.

Definition zero_sums : CommitSums :=
  {| churn_add := 0; churn_del := 0; file_count := 0; complexity_total := 0;
     mi_total := 0%R; lcom_total := 0; import_count_total := 0 |}.

Definition add_churn_add (n : Z) (s : CommitSums) : CommitSums :=
  {| churn_add := churn_add s + n; churn_del := churn_del s;
     file_count := file_count s; complexity_total := complexity_total s;
     mi_total := mi_total s; lcom_total := lcom_total s;
     import_count_total := import_count_total s |}.
Definition add_churn_del (n : Z) (s : CommitSums) : CommitSums :=
  {| churn_add := churn_add s; churn_del := churn_del s + n;
     file_count := file_count s; complexity_total := complexity_total s;
     mi_total := mi_total s; lcom_total := lcom_total s;
     import_count_total := import_count_total s |}.
Definition add_file_count (n : Z) (s : CommitSums) : CommitSums :=
  {| churn_add := churn_add s; churn_del := churn_del s;
     file_count := file_count s + n; complexity_total := complexity_total s;
     mi_total := mi_total s; lcom_total := lcom_total s;
     import_count_total := import_count_total s |}.
Definition add_complexity_total (n : Z) (s : CommitSums) : CommitSums :=
  {| churn_add := churn_add s; churn_del := churn_del s;
     file_count := file_count s; complexity_total := complexity_total s + n;
     mi_total := mi_total s; lcom_total := lcom_total s;
     import_count_total := import_count_total s |}.
Definition add_mi_total (x : R) (s : CommitSums) : CommitSums :=
  {| churn_add := churn_add s; churn_del := churn_del s;
     file_count := file_count s; complexity_total := complexity_total s;
     mi_total := (mi_total s + x)%R; lcom_total := lcom_total s;
     import_count_total := import_count_total s |}.
Definition add_lcom_total (n : Z) (s : CommitSums) : CommitSums :=
  {| churn_add := churn_add s; churn_del := churn_del s;
     file_count := file_count s; complexity_total := complexity_total s;
     mi_total := mi_total s; lcom_total := lcom_total s + n;
     import_count_total := import_count_total s |}.
Definition add_import_count_total (n : Z) (s : CommitSums) : CommitSums :=
  {| churn_add := churn_add s; churn_del := churn_del s;
     file_count := file_count s; complexity_total := complexity_total s;
     mi_total := mi_total s; lcom_total := lcom_total s;
     import_count_total := import_count_total s + n |}.

(** ** The body of a [try] block

    Statements that update the per-commit sums and may raise.  What was
    assigned before the exception stays assigned: the state is returned in
    both cases. *)
Definition Block (A : Type) : Type := CommitSums → result A * CommitSums.

#[global] Instance block_bind : MBind Block := λ A B k m s,
  match m s with
  | (Ok a, s') => k a s'
  | (Raise e, s') => (Raise e, s')
  end.
#[global] Instance block_ret : MRet Block := λ A a s, (Ok a, s).

(** Evaluate an expression that may raise. *)
Definition eval {A} (r : result A) : Block A := λ s, (r, s).
(** An augmented assignment to one of the sums. *)
Definition assign (f : CommitSums → CommitSums) : Block unit := λ s, (Ok (), f s).

(** [try: body except Exception: continue] as the last statement of a loop body. *)
Definition try_except_continue (body : Block unit) (s : CommitSums) : CommitSums :=
  (body s).2.

(** ** Strings *)

(** [s.endswith(suffix)] *)
Definition endswith (s suffix : string) : bool :=
  let n := String.length s in
  let m := String.length suffix in
  (m <=? n)%nat && String.eqb (String.substring (n - m) m s) suffix.

(** [file.endswith(('.py', '.java'))] *)
Definition accepted_extension (file : string) : bool :=
  endswith file ".py" || endswith file ".java".

(** ** Accumulators *)

(** [counter[key]] on a [Counter] or a [defaultdict(int)] *)
Definition counter_get (d : gmap string Z) (key : string) : Z :=
  default 0 (d !! key).
(** [counter[key] += 1] *)
Definition counter_incr (d : gmap string Z) (key : string) : gmap string Z :=
  <[key := counter_get d key + 1]> d.

(** [ownership[key]] on a [defaultdict(set)] *)
Definition owners (d : gmap string (gset string)) (key : string) : gset string :=
  default ∅ (d !! key).
(** [ownership[key].add(a)] *)
Definition owners_add (d : gmap string (gset string)) (key a : string)
  : gmap string (gset string) :=
  <[key := owners d key ∪ {[a]}]> d.

(** [sum(len(owners) for owners in file_ownership.values())] *)
Definition total_owners (d : gmap string (gset string)) : Z :=
  py_sum ((λ o : gset string, Z.of_nat (size o)) <$> dict_values d).

(** The state that lives across the walk (lines 132-134). *)
Record WalkState := {
  data : list CommitMetricRecord;
  file_ownership : gmap string (gset string);
  commit_counts_by_author : gmap string Z;
}.

Definition initial_state : WalkState :=
  {| data := []; file_ownership := ∅; commit_counts_by_author := ∅ |}.

(** The state of the loop over the files of one commit (lines 159-179). *)
Record LoopState := {
  sums : CommitSums;
  file_change_counter : gmap string Z;
  loop_ownership : gmap string (gset string);
}.

(** ** The pipeline *)

Section Pipeline.
Context (E : Env).

Definition measure_cyclomatic_complexity (source_code file_extension : string)
  : result Z :=
  if String.eqb file_extension ".py" then
    complexity_list ← cc_visit E source_code;
    Ok (py_sum complexity_list)
  else
    function_list ← lizard_function_list E source_code;
    Ok (py_sum function_list).

(** The bare [except] turns every failure into [0]. *)
Definition measure_maintainability_index (source_code : string) : R :=
  match mi_visit_mi E source_code with
  | Ok mi => mi
  | Raise _ => 0%R
  end.

Definition measure_cohesion_lcom (source_code : string) : Z :=
  match lizard_function_list E source_code with
  | Ok function_list => Z.of_nat (length function_list)
  | Raise _ => 0
  end.

Definition measure_coupling_imports (source_code : string) : Z :=
  Z.of_nat (length (re_findall_imports E source_code)).

(** Lines 166-177: the body of the [try] for one accepted file. *)
Definition analyze_file (commit : Commit) (file : string) (stat : FileStat)
  : Block unit :=
  source_code ← eval (blob_source commit file);
  _ ← assign (add_churn_add (insertions stat));
  _ ← assign (add_churn_del (deletions stat));
  _ ← assign (add_file_count 1);
  let ext := splitext_ext E file in
  complexity ← eval (measure_cyclomatic_complexity source_code ext);
  _ ← assign (add_complexity_total complexity);
  _ ← (if String.eqb ext ".py"
       then assign (add_mi_total (measure_maintainability_index source_code))
       else mret ());
  _ ← assign (add_import_count_total (measure_coupling_imports source_code));
  assign (add_lcom_total (measure_cohesion_lcom source_code)).

(** Lines 160-179: one iteration of [for file in commit.stats.files]. *)
Definition file_step (commit : Commit) (ls : LoopState)
    (entry : string * FileStat) : LoopState :=
  let file := entry.1 in
  {| file_change_counter := counter_incr (file_change_counter ls) file;
     loop_ownership := owners_add (loop_ownership ls) file (author_email commit);
     sums :=
       if accepted_extension file
       then try_except_continue (analyze_file commit file entry.2) (sums ls)
       else sums ls |}.

Definition file_loop (commit : Commit) (ownership : gmap string (gset string))
  : LoopState :=
  foldl (file_step commit)
    {| sums := zero_sums; file_change_counter := ∅; loop_ownership := ownership |}
    (map_to_list (stats_files commit)).

(** Lines 140-146: the commit is dated and inside the retention window. *)
Definition qualifying_date (commit : Commit) : option Z :=
  match fromtimestamp E (committed_date commit) with
  | Raise _ => None
  | Ok commit_date =>
      if commit_date <? one_year_ago E then None else Some commit_date
  end.

(** Lines 183-197: the appended dict. *)
Definition make_record (commit : Commit) (date : Z) (s : CommitSums)
    (entropy : R) (frequency : Z) (owners_avg : R) : CommitMetricRecord :=
  {| commit_hash := hexsha commit;
     commit_date := date;
     author := author_email commit;
     files_changed := file_count s;
     lines_added := churn_add s;
     lines_deleted := churn_del s;
     total_cyclomatic_complexity := complexity_total s;
     total_maintainability_index := mi_total s;
     total_cohesion_metric_lcom := lcom_total s;
     total_coupling_metric_imports := import_count_total s;
     code_entropy := entropy;
     commit_frequency_by_author := frequency;
     unique_authors_per_file_avg := owners_avg |}.

(** Lines 140-197: one iteration of [for commit in repo.iter_commits()].
    An exception that reaches this level ends [analyze_repository]. *)
Definition process_commit (st : WalkState) (commit : Commit) : result WalkState :=
  match qualifying_date commit with
  | None => Ok st
  | Some date =>
      let counts := counter_incr (commit_counts_by_author st) (author_email commit) in
      let ls := file_loop commit (file_ownership st) in
      entropy ← calculate_entropy (file_change_counter ls);
      owners_avg ← py_truediv (total_owners (loop_ownership ls))
                              (Z.of_nat (size (loop_ownership ls)));
      Ok {| data := data st ++
              [make_record commit date (sums ls) entropy
                 (counter_get counts (author_email commit)) owners_avg];
            file_ownership := loop_ownership ls;
            commit_counts_by_author := counts |}
  end.

Fixpoint walk_from (st : WalkState) (commits : list Commit) : result WalkState :=
  match commits with
  | [] => Ok st
  | commit :: rest => st' ← process_commit st commit; walk_from st' rest
  end.

Definition walk (commits : list Commit) : result WalkState :=
  walk_from initial_state commits.
End Pipeline.

(** ** Dataset assembly (lines 199-206) *)

Record DataFrame := {
  df_columns : list string;
  df_rows : list CommitMetricRecord;
}.

(** [pd.DataFrame(data)] for a list of dicts: the columns are the keys of the
    dicts, so an empty list gives a frame without columns. *)
Definition pd_DataFrame (rows : list CommitMetricRecord) : DataFrame :=
  {| df_columns := match rows with [] => [] | _ :: _ => record_keys end;
     df_rows := rows |}.

(** [df[column]]: [KeyError] for a column the frame does not have. *)
Definition df_getitem (df : DataFrame) (column : string) : result unit :=
  if bool_decide (column ∈ df_columns df) then Ok () else Raise KeyError.

(** [df.sort_values('commit_date', inplace=True)].  The call leaves [kind]
    at the pandas default (quicksort), for which pandas promises an ascending
    rearrangement of the rows and nothing about rows with equal keys. *)
Class SortValues := {
  sort_values : list CommitMetricRecord → list CommitMetricRecord;
  sort_values_perm rows : sort_values rows ≡ₚ rows;
  sort_values_sorted rows : Sorted Z.le (commit_date <$> sort_values rows);
}.

Section Assembly.
Context (E : Env) `{!SortValues}.

Definition assemble (rows : list CommitMetricRecord) : result DataFrame :=
  let df := pd_DataFrame rows in
  _ ← df_getitem df "commit_date";
  Ok {| df_columns := df_columns df; df_rows := sort_values (df_rows df) |}.

Definition analyze_repository (commits : list Commit) : result DataFrame :=
  st ← walk E commits;
  assemble (data st).
End Assembly.

(** ** Reference definitions used to state the properties *)

(** The sum of a list of reals. *)
Definition Rsum (xs : list R) : R := foldr Rplus 0%R xs.

(** Base-2 logarithm on the reals. *)
Definition log2R (x : R) : R := (ln x / ln 2)%R.

(** Shannon entropy of a list of change counts, as the specification words
    it: with [total] the sum of the counts, the sum over the counts of
    [-p * log2(p)] where [p = count/total]. *)
Definition shannon_entropy (counts : list Z) : R :=
  let total := IZR (py_sum counts) in
  (- Rsum ((λ count, (IZR count / total) * log2R (IZR count / total)) <$> counts))%R.

(** What [calculate_entropy] yields for a mapping of [n] files all counted
    once: the guard of the empty total for [n = 0], [log2 n] otherwise. *)
Definition entropy_of_file_count (n : nat) : R :=
  match n with
  | O => 0%R
  | S _ => log2R (INR n)
  end.

(** The ownership accumulator after the author of a commit has been added to
    every file of the commit. *)
Definition ownership_after (author : string) (files : list string)
    (d : gmap string (gset string)) : gmap string (gset string) :=
  foldl (λ d file, owners_add d file author) d files.

(** The commits of a walk that pass the date filter, in walk order. *)
Definition qualifying (E : Env) (commits : list Commit) : list Commit :=
  filter (λ c, is_Some (qualifying_date E c)) commits.

(** How many commits of a list carry a given author. *)
Definition count_author (a : string) (commits : list Commit) : nat :=
  length (filter (λ c, author_email c = a) commits).

(** Ascending order of the rows by commit date. *)
Definition date_le (r1 r2 : CommitMetricRecord) : Prop :=
  commit_date r1 <= commit_date r2.

#[global] Instance date_le_dec : RelDecision date_le :=
  λ r1 r2, decide (commit_date r1 <= commit_date r2).

#[global] Instance date_le_total : Total date_le :=
  λ r1 r2, Z.le_ge_cases (commit_date r1) (commit_date r2).

(** Two sorts that meet the contract of [sort_values]: a merge sort, which
    keeps rows of equal date in their order of arrival, and the same sort run
    on the reversed table, which does not. *)
Definition merge_sort_values : SortValues :=
  {| sort_values := merge_sort date_le;
     sort_values_perm := merge_sort_Permutation date_le;
     sort_values_sorted := λ rows,
       Sorted_fmap commit_date date_le Z.le (merge_sort date_le rows)
         (λ r1 r2 H, H) (Sorted_merge_sort date_le rows) |}.

Definition reversed_merge_sort_values : SortValues :=
  {| sort_values := λ rows, merge_sort date_le (reverse rows);
     sort_values_perm := λ rows,
       transitivity (merge_sort_Permutation date_le (reverse rows))
                    (reverse_Permutation rows);
     sort_values_sorted := λ rows,
       Sorted_fmap commit_date date_le Z.le (merge_sort date_le (reverse rows))
         (λ r1 r2 H, H) (Sorted_merge_sort date_le (reverse rows)) |}.

(** ** Sample repositories *)

Module Sample.
(** Collaborators: timestamps are the identity on non-negative integers,
    the retention window starts at 1000, radon rejects the source
    ["def ("] with a [SyntaxError]. *)
Definition env : Env :=
  {| one_year_ago := 1000;
     fromtimestamp := λ t, if t <? 0 then Raise OtherError else Ok t;
     splitext_ext := λ file,
       if endswith file ".py" then ".py"
       else if endswith file ".java" then ".java" else "";
     cc_visit := λ source,
       if String.eqb source "def (" then Raise SyntaxError else Ok [1; 2];
     lizard_function_list := λ source, Ok [3];
     mi_visit_mi := λ source, Raise OtherError;
     re_findall_imports := λ source, ["import"] |}.

Definition stat (ins del : Z) : FileStat := {| insertions := ins; deletions := del |}.

(** A commit that changes no file ([git commit --allow-empty]). *)
Definition c_empty : Commit :=
  {| hexsha := "e0"; committed_date := 2000; author_email := "ann";
     stats_files := ∅; blob_source := λ _, Raise KeyError |}.

(** A commit whose only file is a Python file that does not parse. *)
Definition c_syntax : Commit :=
  {| hexsha := "5e"; committed_date := 2000; author_email := "ann";
     stats_files := {[ "m.py" := stat 3 2 ]};
     blob_source := λ _, Ok "def (" |}.

(** A commit that deletes its only file: the path is not in the tree. *)
Definition c_deleted : Commit :=
  {| hexsha := "de"; committed_date := 2000; author_email := "ann";
     stats_files := {[ "gone.py" := stat 0 7 ]};
     blob_source := λ _, Raise KeyError |}.

(** A commit that changes two files outside the accepted extensions. *)
Definition c_docs : Commit :=
  {| hexsha := "d0"; committed_date := 2500; author_email := "bob";
     stats_files := {[ "README.md" := stat 4 1; "notes.txt" := stat 9 0 ]};
     blob_source := λ _, Ok "text" |}.

(** A commit with one Python file that analyses. *)
Definition c_code (hash : string) (date : Z) (who file : string) : Commit :=
  {| hexsha := hash; committed_date := date; author_email := who;
     stats_files := {[ file := stat 5 1 ]};
     blob_source := λ _, Ok "import os" |}.

(** A commit older than the window and one without a usable timestamp. *)
Definition c_stale : Commit := c_code "01d" 500 "ann" "a.py".
Definition c_undated : Commit := c_code "bad" (-1) "ann" "a.py".

(** A reverse-chronological walk of three commits by one author. *)
Definition history : list Commit :=
  [c_code "c3" 3000 "ann" "y.py"; c_code "c2" 2500 "ann" "x.py";
   c_code "c1" 2000 "ann" "x.py"].

(** The scenario of three commits by one author that touch [x], then [x]
    and [y], then [y]. *)
Definition c_xy : Commit :=
  {| hexsha := "s2"; committed_date := 2600; author_email := "ann";
     stats_files := {[ "x.py" := stat 1 0; "y.py" := stat 1 0 ]};
     blob_source := λ _, Ok "import os" |}.
Definition scenario : list Commit :=
  [c_code "s1" 2700 "ann" "x.py"; c_xy; c_code "s3" 2500 "ann" "y.py"].
End Sample.

(** ** Further reference definitions *)

(** [True] exactly on a returned value. *)
Definition is_ok {A} (r : result A) : bool :=
  match r with
  | Ok _ => true
  | Raise _ => false
  end.

(** The files of a commit that reach lines 168-170: accepted extension and
    readable content. *)
Definition counted_files (commit : Commit) : list (string * FileStat) :=
  filter (λ entry, accepted_extension entry.1 && is_ok (blob_source commit entry.1))
         (map_to_list (stats_files commit)).

(** Every file of the accumulator has at least one recorded author. *)
Definition owners_nonempty (d : gmap string (gset string)) : Prop :=
  ∀ file o, d !! file = Some o → o ≠ ∅.

(** Every author of the counter has a positive count. *)
Definition counts_positive (d : gmap string Z) : Prop :=
  ∀ a v, d !! a = Some v → 0 < v.

(** * The keyword scanner of [keyword_filter.py]

    A character of a [string] stands for a character of the Python string.
    [str.lower], [str.strip], [os.path.basename], [str.replace] and the file
    system are collaborators. *)

Module KeywordFilter.

(** A text file as the loop [for line in f] sees it: the lines that can be
    read, then the exception that ends the reading, if there is one. *)
Record TextFile := { file_lines : list string; read_error : option exn }.

Record Env := {
  lower : string → string;
  strip : string → string;
  basename : string → string;
  replace : string → string → string → string;
  (** [open(file_path, "r", encoding="utf-8")] *)
  open_text : string → result TextFile;
}.

(** One appended dict. *)
Record Hit := {
  keyword : string;
  repository : string;
  line : Z;
  line_snippet : string;
}.

(** The two variables the loops assign. *)
Record ScanState := { results : list Hit; line_count : Z }.

(** [needle in hay] on two strings. *)
Fixpoint str_contains (needle hay : string) : bool :=
  String.prefix needle hay ||
  match hay with
  | EmptyString => false
  | String _ hay' => str_contains needle hay'
  end.

(** [s[:n]] *)
Definition slice_to (n : nat) (s : string) : string := String.substring 0 n s.

Section Scan.
Context (E : Env).

(** Lines 18-24: one keyword on the current line. *)
Definition check_keyword (repo_name line_text : string) (st : ScanState)
    (kw : string) : ScanState :=
  if str_contains (lower E kw) (lower E line_text)
  then {| results := results st ++
            [{| keyword := kw; repository := repo_name; line := line_count st;
                line_snippet := slice_to 120 (strip E line_text) |}];
          line_count := line_count st |}
  else st.

(** Lines 13-24: one line of the file. *)
Definition scan_line (repo_name : string) (keywords : list string)
    (st : ScanState) (line_text : string) : ScanState :=
  foldl (check_keyword repo_name line_text)
        {| results := results st; line_count := line_count st + 1 |}
        keywords.

(** Lines 12-24: the loop over the file; what has been appended before a
    read error stays appended. *)
Definition scan_file (repo_name : string) (keywords : list string)
    (f : TextFile) (st : ScanState) : result unit * ScanState :=
  (match read_error f with Some e => Raise e | None => Ok () end,
   foldl (scan_line repo_name keywords) st (file_lines f)).

(** Lines 9-24: the body of the [try]. *)
Definition try_scan (file_path : string) (keywords : list string)
    (st : ScanState) : result unit * ScanState :=
  match open_text E file_path with
  | Raise e => (Raise e, st)
  | Ok f =>
      let repo_name := replace E (basename E file_path) ".json" "" in
      scan_file repo_name keywords f st
  end.

(** Lines 4-26: the state when [return] is reached; the [except] clause only
    prints. *)
Definition search_state (file_path : string) (keywords : list string) : ScanState :=
  let st0 := {| results := []; line_count := 0 |} in
  if endswith file_path ".json" then (try_scan file_path keywords st0).2 else st0.

Definition search_keywords_in_json_text (file_path : string)
    (keywords : list string) : list Hit :=
  results (search_state file_path keywords).
End Scan.

(** The hits of one line, keyword by keyword. *)
Definition hits_of_line (E : Env) (repo_name : string) (keywords : list string)
    (n : Z) (line_text : string) : list Hit :=
  (λ kw, {| keyword := kw; repository := repo_name; line := n;
            line_snippet := slice_to 120 (strip E line_text) |}) <$>
  filter (λ kw, str_contains (lower E kw) (lower E line_text)) keywords.

(** The hits found so far are in file order, on lines already counted, at
    most one per keyword and line. *)
Definition scan_invariant (keywords : list string) (st : ScanState) : Prop :=
  StronglySorted Z.le (line <$> results st) ∧
  Forall (λ n, 1 <= n <= line_count st) (line <$> results st) ∧
  0 <= line_count st ∧
  Z.of_nat (length (results st)) <= line_count st * Z.of_nat (length keywords).

(** A scanner whose [lower] maps the capitals A-Z to a-z and whose file
    system holds one file. *)
Definition lower_char (c : Ascii.ascii) : Ascii.ascii :=
  let n := Ascii.nat_of_ascii c in
  if (65 <=? n)%nat && (n <=? 90)%nat then Ascii.ascii_of_nat (n + 32) else c.

Fixpoint ascii_lower (s : string) : string :=
  match s with
  | EmptyString => EmptyString
  | String c s' => String (lower_char c) (ascii_lower s')
  end.

Definition sample_env : Env :=
  {| lower := ascii_lower;
     strip := λ s, s;
     basename := λ s, s;
     replace := λ s _ _, s;
     open_text := λ path,
       if String.eqb path "repo.json"
       then Ok {| file_lines := ["Unit tests"; "no match"; "JUnit and unit"];
                  read_error := Some OtherError |}
       else Raise OtherError |}.
End KeywordFilter.

(** * Path and string functions of the Python library

    [str.rfind], slices, [os.path.basename], [os.path.splitext] (the POSIX
    flavour, which agrees with the Windows one on paths without backslash
    and colon), [str.strip] and [str.split] on one character. *)

Module PyStr.
Import Stdlib.Strings.Ascii.
(** [s.rfind(c)]: the highest index of [c] in [s], or -1. *)
Fixpoint rfind (c : Ascii.ascii) (s : string) : Z :=
  match s with
  | EmptyString => -1
  | String d s' =>
      let r := rfind c s' in
      if 0 <=? r then r + 1 else if Ascii.eqb d c then 0 else -1
  end.

(** [s[:i]] and [s[i:]] for [0 <= i]. *)
Definition slice_to (i : nat) (s : string) : string := String.substring 0 i s.
Definition slice_from (i : nat) (s : string) : string :=
  String.substring i (String.length s - i) s.

(** [os.path.basename(p)]: [p[p.rfind('/') + 1:]]. *)
Definition basename (p : string) : string :=
  slice_from (Z.to_nat (rfind "/"%char p + 1)) p.

(** Every character of [s] is [c]. *)
Fixpoint all_chars (c : Ascii.ascii) (s : string) : bool :=
  match s with
  | EmptyString => true
  | String d s' => Ascii.eqb d c && all_chars c s'
  end.

(** [os.path.splitext(p)]: split at the last dot when it comes after the
    last separator and some character between the two is not a dot. *)
Definition splitext (p : string) : string * string :=
  let sepIndex := rfind "/"%char p in
  let dotIndex := rfind "."%char p in
  if sepIndex <? dotIndex then
    if all_chars "."%char (String.substring (Z.to_nat (sepIndex + 1))
                        (Z.to_nat (dotIndex - (sepIndex + 1))) p)
    then (p, EmptyString)
    else (slice_to (Z.to_nat dotIndex) p, slice_from (Z.to_nat dotIndex) p)
  else (p, EmptyString).

(** [s.lstrip(c)], [s.rstrip(c)], [s.strip(c)] for one character [c]. *)
Fixpoint lstrip (c : Ascii.ascii) (s : string) : string :=
  match s with
  | EmptyString => EmptyString
  | String d s' => if Ascii.eqb d c then lstrip c s' else s
  end.

Fixpoint rstrip (c : Ascii.ascii) (s : string) : string :=
  match s with
  | EmptyString => EmptyString
  | String d s' =>
      match rstrip c s' with
      | EmptyString => if Ascii.eqb d c then EmptyString else String d EmptyString
      | String e r => String d (String e r)
      end
  end.

Definition strip (c : Ascii.ascii) (s : string) : string := rstrip c (lstrip c s).

(** [s.split(c)[0]]: what comes before the first [c]. *)
Fixpoint split_first (c : Ascii.ascii) (s : string) : string :=
  match s with
  | EmptyString => EmptyString
  | String d s' => if Ascii.eqb d c then EmptyString else String d (split_first c s')
  end.

(** [c in s] *)
Fixpoint has_char (c : Ascii.ascii) (s : string) : bool :=
  match s with
  | EmptyString => false
  | String d s' => Ascii.eqb d c || has_char c s'
  end.
End PyStr.

(** * The history export of [extract_commit_history.py] *)

Module ExtractHistory.
Import Stdlib.Strings.Ascii.

(** The exceptions that end [extract_commit_history]: the local variable
    [parsed_url] read before any assignment, or an exception of a library
    call. *)
Inductive failure : Type :=
  | UnboundLocalError
  | LibraryError (e : exn).

Inductive outcome (A : Type) : Type :=
  | Returned (a : A)
  | Failed (f : failure).
Arguments Returned {A} a.
Arguments Failed {A} f.

Record Person := { person_name : string; person_email : string }.

(** [commit.stats.total] and one entry of [commit.stats.files]. *)
Record StatsTotal := {
  total_insertions : Z; total_deletions : Z; total_lines : Z; total_files : Z;
}.
Record NumStat := { ns_insertions : Z; ns_deletions : Z; ns_lines : Z }.

(** A commit as the export reads it.  [tree] is the pair of
    [commit.tree.hexsha] and the blob ids of [commit.tree.traverse()], or the
    exception raised on the way; the other attributes are taken as already
    read.  The order of the keys of [stats_files] is not modelled. *)
Record GitCommit := {
  hexsha : string;
  committed_date : Z;
  author : Person;
  committer : Person;
  message : string;
  parents : list string;
  tree : result (string * list string);
  stats_total : StatsTotal;
  stats_files : gmap string NumStat;
}.

(** One dict of [commits_data]. *)
Record CommitInfo := {
  commit_hash : string;
  info_author : Person;
  info_committer : Person;
  commit_date : string;
  info_message : string;
  info_parents : list string;
  tree_id : option string;
  blob_ids : list string;
  info_stats_total : StatsTotal;
  info_stats_files : gmap string NumStat;
  files_changed : list string;
}.

Record Env := {
  (** [datetime.fromtimestamp] *)
  fromtimestamp : Z → result Z;
  (** [datetime.now() - timedelta(days=365 * years_back)] *)
  start_date : Z → Z;
  (** [commit_date.isoformat()] *)
  isoformat : Z → string;
  (** [urlparse(git_url).path] *)
  url_path : string → string;
}.

(** The variables assigned by the loop; [parsed_url] is unbound until the
    end of the first iteration that is not skipped. *)
Record LoopState := {
  commits_data : list CommitInfo;
  parsed_url : option string;
}.

Section HistoryExport.
Context (E : Env).

(** Lines 26-53: the dict of a commit inside the window. *)
Definition make_info (commit : GitCommit) (date : Z) : CommitInfo :=
  let '(tree_info, blobs) :=
    match tree commit with
    | Ok (tree_hexsha, blobs) => (Some tree_hexsha, blobs)
    | Raise _ => (None, [])
    end in
  {| commit_hash := hexsha commit;
     info_author := author commit;
     info_committer := committer commit;
     commit_date := isoformat E date;
     info_message := message commit;
     info_parents := parents commit;
     tree_id := tree_info;
     blob_ids := blobs;
     info_stats_total := stats_total commit;
     info_stats_files := stats_files commit;
     files_changed := (map_to_list (stats_files commit)).*1 |}.

(** Lines 22-56: one iteration; the timestamp conversion is not guarded. *)
Definition history_step (git_url : string) (years_back : Z) (st : LoopState)
    (commit : GitCommit) : result LoopState :=
  date ← fromtimestamp E (committed_date commit);
  if date <? start_date E years_back then Ok st
  else Ok {| commits_data := commits_data st ++ [make_info commit date];
             parsed_url := Some (url_path E git_url) |}.

Fixpoint history_loop (git_url : string) (years_back : Z) (st : LoopState)
    (commits : list GitCommit) : result LoopState :=
  match commits with
  | [] => Ok st
  | commit :: rest =>
      st' ← history_step git_url years_back st commit;
      history_loop git_url years_back st' rest
  end.

(** Lines 57-60: the name of the output file. *)
Definition json_output_file (path : string) : string :=
  let repo_name := (PyStr.splitext (PyStr.basename path)).1 in
  let owner := PyStr.split_first "/"%char (PyStr.strip "/"%char path) in
  owner +:+ "_" +:+ repo_name +:+ ".json".

(** Lines 15-63: the file written, as its name and the list handed to
    [json.dump]; opening and writing the file are not modelled. *)
Definition extract_commit_history (git_url : string) (years_back : Z)
    (commits : list GitCommit) : outcome (string * list CommitInfo) :=
  match history_loop git_url years_back
          {| commits_data := []; parsed_url := None |} commits with
  | Raise e => Failed (LibraryError e)
  | Ok st =>
      match parsed_url st with
      | None => Failed UnboundLocalError
      | Some path => Returned (json_output_file path, commits_data st)
      end
  end.
End HistoryExport.

(** The commits inside the window, with their converted dates. *)
Definition in_window (E : Env) (years_back : Z) (commit : GitCommit) : option Z :=
  match fromtimestamp E (committed_date commit) with
  | Ok date => if date <? start_date E years_back then None else Some date
  | Raise _ => None
  end.

(** The timestamp of [commit] converts. *)
Definition dated (E : Env) (commit : GitCommit) : Prop :=
  ∃ date, fromtimestamp E (committed_date commit) = Ok date.

(** The dicts of the commits inside the window, in the order of the walk. *)
Definition exported (E : Env) (years_back : Z) (commits : list GitCommit)
  : list CommitInfo :=
  omap (λ commit, make_info E commit <$> in_window E years_back commit) commits.

Definition sample_env : Env :=
  {| fromtimestamp := λ t, if t <? 0 then Raise OtherError else Ok t;
     start_date := λ years_back, 10000 - 365 * years_back;
     isoformat := λ _, "date";
     url_path := λ url, "/pallets/flask.git" |}.

Definition sample_commit (hash : string) (date : Z) (t : result (string * list string))
  : GitCommit :=
  {| hexsha := hash; committed_date := date;
     author := {| person_name := "Ann"; person_email := "ann" |};
     committer := {| person_name := "Ann"; person_email := "ann" |};
     message := "m"; parents := []; tree := t;
     stats_total := {| total_insertions := 1; total_deletions := 0;
                       total_lines := 1; total_files := 1 |};
     stats_files := {[ "a.py" := {| ns_insertions := 1; ns_deletions := 0;
                                    ns_lines := 1 |} ]} |}.
End ExtractHistory.

(** * The driver of [main.py] *)

Module Main.
Definition NUM_REPOS : Z := 5.

(** A row of [csv.DictReader] maps column names to values of type [V] (a
    string, or [None] in a short row); the value under ['URL'] is handed to
    the extraction as it is. *)
Record Env (V : Type) := {
  (** [extract_commit_history_from_url(url, years_back)] *)
  extract_commit_history_from_url : V → Z → result unit;
}.
Arguments extract_commit_history_from_url {V} _ _ _.

Section Driver.
Context {V : Type} (E : Env V).

(** Lines 10-15: the loop over the rows of the CSV reader, from index [i];
    [calls] lists the extractions started so far. *)
Fixpoint process_rows (i limit : Z) (rows : list (gmap string V))
    (calls : list (V * Z)) : list (V * Z) * result unit :=
  match rows with
  | [] => (calls, Ok ())
  | row :: rest =>
      if limit <=? i then (calls, Ok ())
      else
        match row !! "URL" with
        | None => (calls, Raise KeyError)
        | Some url =>
            match extract_commit_history_from_url E url 10 with
            | Raise e => (calls ++ [(url, 10)], Raise e)
            | Ok _ => process_rows (i + 1) limit rest (calls ++ [(url, 10)])
            end
        end
  end.

Definition process_repos (rows : list (gmap string V)) (limit : Z)
  : list (V * Z) * result unit :=
  process_rows 0 limit rows [].
End Driver.

(** The row has a value under ['URL'] on which the extraction returns. *)
Definition handled {V : Type} (E : Env V) (row : gmap string V) : Prop :=
  ∃ url, row !! "URL" = Some url ∧
         extract_commit_history_from_url E url 10 = Ok ().

(** The extractions started for rows that have a value under ['URL']. *)
Definition calls_of {V : Type} (rows : list (gmap string V)) : list (V * Z) :=
  (λ url, (url, 10)) <$> omap (λ row, row !! "URL") rows.

(** An extraction that fails on one URL. *)
Definition sample_env : Env string :=
  {| extract_commit_history_from_url := λ url _,
       if String.eqb url "bad" then Raise OtherError else Ok () |}.
End Main.

(** * The plots of [analyze_repository.py]

    The calls of matplotlib are kept as the name of the file each figure is
    saved to; what they may raise on their own is not modelled. *)

Module Plot.
(** Lines 211-222: the columns plotted and their labels. *)
Definition metrics : list (string * string) :=
  [("total_cyclomatic_complexity", "Cyclomatic Complexity");
   ("total_maintainability_index", "Maintainability Index");
   ("code_entropy", "Code Entropy");
   ("total_cohesion_metric_lcom", "LCOM (Cohesion Metric)");
   ("total_coupling_metric_imports", "Coupling (Import Count)");
   ("lines_added", "Lines Added");
   ("lines_deleted", "Lines Deleted");
   ("files_changed", "Files Changed");
   ("commit_frequency_by_author", "Commit Frequency by Author");
   ("unique_authors_per_file_avg", "Unique Authors per File")].

(** [f"plot_{column}.png"] *)
Definition plot_file (column : string) : string :=
  "plot_" +:+ column +:+ ".png".

(** Lines 225-237: one iteration; [plt.plot] reads [df['commit_date']] and
    [df[column]]. *)
Definition plot_step (df : DataFrame) (saved : list string)
    (metric : string * string) : result (list string) :=
  let column := metric.1 in
  if bool_decide (column ∈ df_columns df) then
    _ ← df_getitem df "commit_date";
    _ ← df_getitem df column;
    Ok (saved ++ [plot_file column])
  else Ok saved.

Fixpoint plot_loop (df : DataFrame) (saved : list string)
    (rest : list (string * string)) : result (list string) :=
  match rest with
  | [] => Ok saved
  | metric :: rest =>
      saved' ← plot_step df saved metric;
      plot_loop df saved' rest
  end.

(** Lines 209-237, as the list of the files saved. *)
Definition plot_metrics (df : DataFrame) : result (list string) :=
  plot_loop df [] metrics.

Section Run.
Context (E : Env) `{!SortValues}.

(** Lines 240-244, from the commits of the clone on. *)
Definition run_analysis_from_url (commits : list Commit) : result (list string) :=
  df ← analyze_repository E commits;
  plot_metrics df.
End Run.
End Plot.

(** ** Further sample data *)

Module Fixtures.
(** A commit that changes one Java file. *)
Definition c_java : Commit :=
  {| hexsha := "7a"; committed_date := 2000; author_email := "bob";
     stats_files := {[ "src/A.java" := Sample.stat 10 2 ]};
     blob_source := λ _, Ok "class A {}" |}.

(** Two authors on the same file, then a second file. *)
Definition shared : list Commit :=
  [Sample.c_code "h3" 3000 "ann" "x.py"; Sample.c_code "h2" 2500 "bob" "x.py";
   Sample.c_code "h1" 2000 "ann" "y.py"].
End Fixtures.

(** * The estimator in binary64 arithmetic

    The pipeline above reads floats as real numbers; that reading is kept
    for statements that do not depend on rounding.  This module evaluates
    [calculate_entropy] as CPython does, on IEEE 754 binary64 values
    ([spec_float] with 53 bits of precision), for the statements that are
    about the value returned or the exception raised.
    - [a / b] on two [int]s is the quotient correctly rounded to the nearest
      float, ties to even; it raises [OverflowError] when that float would be
      infinite, and a quotient too small becomes a subnormal or a zero.
    - [math.log2] is the wrapper of the [math] module around the [log2] of
      the C library, which is a parameter ([Libm]).
    - [sum] starts from the [int] 0 and adds from left to right (CPython up
      to 3.11; later versions add a compensation term).
    - A [dict] is the list of its items in insertion order. *)

Module Binary64.
Import Stdlib.Floats.SpecFloat.
Definition float : Type := spec_float.

Definition fadd : float → float → float := SFadd 53 1024.
Definition fmul : float → float → float := SFmul 53 1024.
Definition fdiv : float → float → float := SFdiv 53 1024.
Definition fopp : float → float := SFopp.

(** [0.0], [1.0] *)
Definition zero : float := S754_zero false.
Definition one : float := S754_finite false 4503599627370496 (-52).

(** An [int] as an unrounded binary number: the operand of the division. *)
Definition of_int (z : Z) : float :=
  match z with
  | Z0 => S754_zero false
  | Zpos m => S754_finite false m 0
  | Zneg m => S754_finite true m 0
  end.

(** [a / b] on two [int]s.  A zero numerator gives a zero with the sign of
    the divisor. *)
Definition py_truediv (a b : Z) : result float :=
  if b =? 0 then Raise ZeroDivisionError
  else
    match a with
    | Z0 => Ok (S754_zero (b <? 0))
    | _ =>
        match fdiv (of_int a) (of_int b) with
        | S754_infinity _ => Raise OverflowError
        | q => Ok q
        end
    end.

(** The C library. *)
Record Libm := {
  (** [double log2(double)] *)
  log2 : float → float;
}.

Definition is_nan (x : float) : bool :=
  match x with S754_nan => true | _ => false end.
Definition is_inf (x : float) : bool :=
  match x with S754_infinity _ => true | _ => false end.
Definition is_finite (x : float) : bool :=
  match x with S754_zero _ | S754_finite _ _ _ => true | _ => false end.

(** [m_log2] of [mathmodule.c]: the library is called on positive finite
    arguments only; a zero gives minus infinity and a negative number a NaN,
    both with [errno = EDOM]. *)
Definition m_log2 (L : Libm) (x : float) : float :=
  match x with
  | S754_nan => x
  | S754_infinity false => x
  | S754_infinity true => S754_nan
  | S754_finite false _ _ => log2 L x
  | S754_finite true _ _ => S754_nan
  | S754_zero _ => S754_infinity true
  end.

(** [math.log2(x)] on a float: [ValueError] (math domain error) when the
    result is a NaN that the argument is not, or an infinity on a finite
    argument. *)
Definition math_log2 (L : Libm) (x : float) : result float :=
  let r := m_log2 L x in
  if is_nan r && negb (is_nan x) then Raise ValueError
  else if is_inf r && is_finite x then Raise ValueError
  else Ok r.

(** A Python number: the function returns the [int] 0 or a [float]. *)
Inductive number : Type :=
  | Int (z : Z)
  | Float (x : float).

(** Unary minus. *)
Definition py_neg (n : number) : number :=
  match n with
  | Int z => Int (- z)
  | Float x => Float (fopp x)
  end.

(** The additions of [sum] once the running total is a float. *)
Fixpoint sum_floats {A} (f : A → result float) (acc : float) (xs : list A)
  : result float :=
  match xs with
  | [] => Ok acc
  | x :: xs' => v ← f x ; sum_floats f (fadd acc v) xs'
  end.

(** [sum(f(x) for x in xs)] for a generator of floats: the [int] 0 for no
    item; otherwise [0 + v] is [0.0 + v], and the first exception raised by
    the generator ends the sum. *)
Definition py_sum_gen {A} (f : A → result float) (xs : list A) : result number :=
  match xs with
  | [] => Ok (Int 0)
  | _ :: _ => s ← sum_floats f zero xs ; Ok (Float s)
  end.

(** One term of the generator: [(count / total) * math.log2(count / total)]. *)
Definition entropy_term (L : Libm) (total count : Z) : result float :=
  p ← py_truediv count total ;
  q ← py_truediv count total ;
  l ← math_log2 L q ;
  Ok (fmul p l).

(** Lines 40-48. *)
Definition calculate_entropy (L : Libm) (change_counts : list (string * Z))
  : result number :=
  let total := py_sum (change_counts.*2) in
  if total =? 0 then Ok (Int 0)
  else
    s ← py_sum_gen (entropy_term L total) (change_counts.*2) ;
    Ok (py_neg s).

(** ** The algorithm in the words of the specification

    For each file compute the probability [p = count / total] and accumulate
    [-p * log2(p)]; the sum of these contributions is the entropy. *)
Definition contribution (L : Libm) (total count : Z) : result float :=
  p ← py_truediv count total ;
  l ← math_log2 L p ;
  Ok (fmul (fopp p) l).

Definition shannon_accumulation (L : Libm) (change_counts : list (string * Z))
  : result number :=
  let total := py_sum (change_counts.*2) in
  if total =? 0 then Ok (Int 0)
  else
    s ← sum_floats (contribution L total) zero (change_counts.*2) ;
    Ok (Float s).

(** Equality of floats up to the sign of a zero: what [==] decides on
    numbers that are not NaN. *)
Definition same_number (x y : float) : Prop :=
  x = y ∨ ∃ s s', x = S754_zero s ∧ y = S754_zero s'.

Definition same_outcome (r1 r2 : result number) : Prop :=
  match r1, r2 with
  | Ok (Float x), Ok (Float y) => same_number x y
  | Ok (Int i), Ok (Int j) => i = j
  | Raise e1, Raise e2 => e1 = e2
  | _, _ => False
  end.

(** ** Sample data *)

(** The values of [log2] at the arguments the examples reach, [1.0], [1/11]
    rounded and [11.0]: the correctly rounded logarithms, which are the
    values [math.log2] returns there with glibc. *)
Definition sample_libm : Libm :=
  {| log2 := λ x,
       match x with
       | S754_finite false 4503599627370496 (-52) => S754_zero false
       | S754_finite false 6550690367084358 (-56) =>
           S754_finite true 7789947474304322 (-51)
       | S754_finite false 6192449487634432 (-49) =>
           S754_finite false 7789947474304322 (-51)
       | _ => S754_nan
       end |}.

(** Eleven files changed once each. *)
Definition eleven_files : list (string * Z) :=
  (λ name, (name, 1)) <$>
    ["a"; "b"; "c"; "d"; "e"; "f"; "g"; "h"; "i"; "j"; "k"].

(** One count so large that the quotient of the other underflows. *)
Definition lopsided : list (string * Z) := [("a", 2 ^ 1075); ("b", 1)].
End Binary64.
(** * Properties *)

(** ** The extension filter on sample paths *)

Example endswith_py : endswith "pkg/m.py" ".py" = true.
Proof. reflexivity. Qed.
Example endswith_short : endswith "py" ".py" = false.
Proof. reflexivity. Qed.
Example accepted_extension_java : accepted_extension "src/A.java" = true.
Proof. reflexivity. Qed.
Example accepted_extension_md : accepted_extension "README.md" = false.
Proof. reflexivity. Qed.

Lemma Ok_inj {A} (a b : A) : Ok a = Ok b → a = b.
Proof. by intros [= ->]. Qed.

(** ** Integer and real sums *)

Lemma foldl_add_shift (xs : list Z) (a : Z) : foldl Z.add a xs = a + foldl Z.add 0 xs.
Proof.
  revert a. induction xs as [|x xs IH]; intros a; simpl; [lia|].
  rewrite (IH (a + x)), (IH (0 + x)). lia.
Qed.

Lemma py_sum_nil : py_sum [] = 0.
Proof. reflexivity. Qed.

Lemma py_sum_cons (x : Z) (xs : list Z) : py_sum (x :: xs) = x + py_sum xs.
Proof. unfold py_sum. simpl. apply foldl_add_shift. Qed.

Lemma py_sum_replicate (n : nat) (c : Z) : py_sum (replicate n c) = Z.of_nat n * c.
Proof.
  induction n as [|n IH]; [reflexivity|].
  simpl replicate. rewrite py_sum_cons, IH. lia.
Qed.

Lemma py_sum_nonneg (xs : list Z) : Forall (λ x, 0 <= x) xs → 0 <= py_sum xs.
Proof.
  induction 1 as [|x xs Hx _ IH]; [rewrite py_sum_nil; lia|].
  rewrite py_sum_cons. lia.
Qed.

Lemma py_sum_pos (xs : list Z) : Forall (λ x, 0 < x) xs → xs ≠ [] → 0 < py_sum xs.
Proof.
  intros Hall Hne. destruct Hall as [|x xs Hx Hxs]; [done|].
  rewrite py_sum_cons.
  assert (0 <= py_sum xs); [|lia].
  apply py_sum_nonneg. eapply Forall_impl; [exact Hxs|]. simpl. lia.
Qed.

Lemma ln2_neq_0 : ln 2 ≠ 0%R.
Proof.
  assert (0 < ln 2)%R; [|lra].
  rewrite <- ln_1. apply ln_increasing; lra.
Qed.

Lemma log2R_1 : log2R 1 = 0%R.
Proof. unfold log2R. rewrite ln_1. unfold Rdiv. apply Rmult_0_l. Qed.

Lemma log2R_2 : log2R 2 = 1%R.
Proof. unfold log2R. field. apply ln2_neq_0. Qed.

Lemma log2R_inv (x : R) : (0 < x)%R → log2R (/ x) = (- log2R x)%R.
Proof.
  intros Hx. unfold log2R. rewrite ln_Rinv by done.
  unfold Rdiv. lra.
Qed.

Lemma math_log2_pos (x : R) : (0 < x)%R → math_log2 x = Ok (log2R x).
Proof.
  intros Hx. unfold math_log2. destruct (Rlt_dec 0 x); [reflexivity|contradiction].
Qed.

Lemma math_log2_nonpos (x : R) : (x <= 0)%R → math_log2 x = Raise ValueError.
Proof.
  intros Hx. unfold math_log2. destruct (Rlt_dec 0 x); [lra|reflexivity].
Qed.

Lemma py_truediv_ok (a b : Z) : b ≠ 0 → py_truediv a b = Ok (IZR a / IZR b)%R.
Proof.
  intros Hb. unfold py_truediv. by rewrite (proj2 (Z.eqb_neq b 0) Hb).
Qed.

Lemma Rsum_cons (x : R) (xs : list R) : Rsum (x :: xs) = (x + Rsum xs)%R.
Proof. reflexivity. Qed.

Lemma Rsum_replicate (n : nat) (x : R) : Rsum (replicate n x) = (INR n * x)%R.
Proof.
  induction n as [|n IH]; [simpl; lra|].
  rewrite S_INR. simpl replicate. rewrite Rsum_cons, IH. lra.
Qed.

Lemma py_sum_gen_total {A} (f : A → result R) (g : A → R) (xs : list A) (acc : R) :
  Forall (λ x, f x = Ok (g x)) xs →
  py_sum_gen f acc xs = Ok (acc + Rsum (g <$> xs))%R.
Proof.
  intros Hall. revert acc.
  induction Hall as [|x xs Hx _ IH]; intros acc.
  - simpl. f_equal. lra.
  - cbn [py_sum_gen]. rewrite Hx. cbn [mbind result_bind].
    rewrite IH, fmap_cons, Rsum_cons. f_equal. lra.
Qed.

(** ** [calculate_entropy] *)

Lemma dict_values_length {V} (d : gmap string V) : length (dict_values d) = size d.
Proof. unfold dict_values. by rewrite length_fmap, length_map_to_list. Qed.

Lemma dict_values_empty {V} : dict_values (∅ : gmap string V) = [].
Proof. unfold dict_values. by rewrite map_to_list_empty. Qed.

Lemma elem_of_dict_values {V} (d : gmap string V) (v : V) :
  v ∈ dict_values d ↔ ∃ k, d !! k = Some v.
Proof.
  unfold dict_values. rewrite list_elem_of_fmap. split.
  - intros ([k w] & -> & Hin). exists k. by apply elem_of_map_to_list in Hin.
  - intros [k Hk]. exists (k, v). split; [done|]. by apply elem_of_map_to_list.
Qed.

Lemma dict_values_nil {V} (d : gmap string V) : dict_values d = [] → d = ∅.
Proof.
  intros H. apply map_size_empty_inv. by rewrite <- dict_values_length, H.
Qed.

Lemma dict_values_constant {V} (d : gmap string V) (c : V) :
  (∀ k v, d !! k = Some v → v = c) → dict_values d = replicate (size d) c.
Proof.
  intros Hc. symmetry. apply replicate_as_Forall. split.
  - apply dict_values_length.
  - apply Forall_forall. intros v Hv.
    apply elem_of_dict_values in Hv as [k Hk]. symmetry. eauto.
Qed.

Lemma entropy_term_pos (total count : Z) :
  0 < total → 0 < count →
  entropy_term total count =
    Ok (IZR count / IZR total * log2R (IZR count / IZR total))%R.
Proof.
  intros Ht Hc. unfold entropy_term.
  rewrite py_truediv_ok by lia. cbn [mbind result_bind].
  rewrite math_log2_pos; [reflexivity|].
  apply Rdiv_lt_0_compat; apply IZR_lt; lia.
Qed.

Lemma calculate_entropy_zero_total (change_counts : gmap string Z) :
  py_sum (dict_values change_counts) = 0 → calculate_entropy change_counts = Ok 0%R.
Proof. intros H. unfold calculate_entropy. by rewrite H. Qed.

Lemma calculate_entropy_positive (change_counts : gmap string Z) :
  change_counts ≠ ∅ →
  (∀ file count, change_counts !! file = Some count → 0 < count) →
  calculate_entropy change_counts = Ok (shannon_entropy (dict_values change_counts)).
Proof.
  intros Hne Hpos.
  assert (Hall : Forall (λ x, 0 < x) (dict_values change_counts)).
  { apply Forall_forall. intros c Hc.
    apply elem_of_dict_values in Hc as [k Hk]. eauto. }
  assert (Ht : 0 < py_sum (dict_values change_counts)).
  { apply py_sum_pos; [done|]. intros Hnil. by apply Hne, dict_values_nil. }
  unfold calculate_entropy. rewrite (proj2 (Z.eqb_neq _ 0)) by lia.
  set (total := py_sum (dict_values change_counts)) in *.
  rewrite (py_sum_gen_total _
    (λ count, IZR count / IZR total * log2R (IZR count / IZR total))%R).
  - cbn [mbind result_bind]. unfold shannon_entropy. fold total. do 2 f_equal. lra.
  - eapply Forall_impl; [exact Hall|]. intros c Hc. by apply entropy_term_pos.
Qed.

Lemma shannon_entropy_replicate (k : nat) (c : Z) :
  (0 < k)%nat → 0 < c → shannon_entropy (replicate k c) = log2R (INR k).
Proof.
  intros Hk Hc. unfold shannon_entropy.
  rewrite py_sum_replicate, fmap_replicate, Rsum_replicate.
  rewrite mult_IZR, <- INR_IZR_INZ.
  assert (HkR : (0 < INR k)%R) by (apply lt_0_INR; lia).
  assert (HcR : (0 < IZR c)%R) by (apply IZR_lt; lia).
  replace (IZR c / (INR k * IZR c))%R with (/ INR k)%R by (field; lra).
  rewrite log2R_inv by done. field. lra.
Qed.

Lemma calculate_entropy_equal_counts (change_counts : gmap string Z) (c : Z) :
  change_counts ≠ ∅ → 0 < c →
  (∀ file count, change_counts !! file = Some count → count = c) →
  calculate_entropy change_counts = Ok (log2R (INR (size change_counts))).
Proof.
  intros Hne Hc Hall.
  rewrite calculate_entropy_positive; [|done|].
  - rewrite (dict_values_constant _ c) by done.
    rewrite shannon_entropy_replicate; [done| |done].
    destruct (size change_counts) eqn:Hsz; [|lia].
    by apply map_size_empty_inv in Hsz.
  - intros f x Hf. by rewrite (Hall _ _ Hf).
Qed.

(** ** The accumulators *)

Lemma counter_get_incr_eq (d : gmap string Z) (key : string) :
  counter_get (counter_incr d key) key = counter_get d key + 1.
Proof. unfold counter_incr, counter_get at 1. by rewrite lookup_insert_eq. Qed.

Lemma counter_get_incr_ne (d : gmap string Z) (key key' : string) :
  key ≠ key' → counter_get (counter_incr d key) key' = counter_get d key'.
Proof. intros Hne. unfold counter_incr, counter_get. by rewrite lookup_insert_ne. Qed.

Lemma foldl_counter_incr_lookup (keys : list string) (d : gmap string Z) (f : string) :
  NoDup keys →
  foldl counter_incr d keys !! f =
    if decide (f ∈ keys) then Some (counter_get d f + 1) else d !! f.
Proof.
  intros Hnd. revert d.
  induction Hnd as [|k keys Hk Hnd IH]; intros d; cbn [foldl].
  - rewrite decide_False; [done|]. apply not_elem_of_nil.
  - rewrite IH. destruct (decide (f = k)) as [->|Hne].
    + rewrite decide_False by done. rewrite decide_True by apply list_elem_of_here.
      unfold counter_incr. by rewrite lookup_insert_eq.
    + destruct (decide (f ∈ keys)) as [Hin|Hnin].
      * rewrite decide_True by (by apply list_elem_of_further).
        by rewrite counter_get_incr_ne.
      * rewrite decide_False by (rewrite elem_of_cons; tauto).
        unfold counter_incr. by rewrite lookup_insert_ne.
Qed.

Lemma ownership_after_lookup (a : string) (files : list string)
    (d : gmap string (gset string)) (f : string) :
  NoDup files →
  ownership_after a files d !! f =
    if decide (f ∈ files) then Some (owners d f ∪ {[a]}) else d !! f.
Proof.
  intros Hnd. revert d. unfold ownership_after.
  induction Hnd as [|k files Hk Hnd IH]; intros d; cbn [foldl].
  - rewrite decide_False; [done|]. apply not_elem_of_nil.
  - rewrite IH. destruct (decide (f = k)) as [->|Hne].
    + rewrite decide_False by done. rewrite decide_True by apply list_elem_of_here.
      unfold owners_add. by rewrite lookup_insert_eq.
    + unfold owners_add, owners. rewrite !lookup_insert_ne by done.
      destruct (decide (f ∈ files)) as [Hin|Hnin].
      * by rewrite decide_True by (by apply list_elem_of_further).
      * by rewrite decide_False by (rewrite elem_of_cons; tauto).
Qed.

Lemma ownership_after_owners (a : string) (files : list string)
    (d : gmap string (gset string)) (f : string) :
  NoDup files →
  owners (ownership_after a files d) f =
    if decide (f ∈ files) then owners d f ∪ {[a]} else owners d f.
Proof.
  intros Hnd. unfold owners at 1. rewrite ownership_after_lookup by done.
  by destruct (decide (f ∈ files)).
Qed.

Lemma ownership_after_nonempty (a : string) (files : list string)
    (d : gmap string (gset string)) :
  NoDup files → files ≠ [] ∨ d ≠ ∅ → ownership_after a files d ≠ ∅.
Proof.
  intros Hnd Hor Hempty.
  assert (Hnone : ∀ f, ownership_after a files d !! f = None).
  { intros f. by rewrite Hempty, lookup_empty. }
  destruct Hor as [Hfiles|Hd].
  - destruct files as [|k files]; [done|].
    specialize (Hnone k). rewrite ownership_after_lookup in Hnone by done.
    by rewrite decide_True in Hnone by apply list_elem_of_here.
  - apply Hd, map_eq. intros f. rewrite lookup_empty.
    specialize (Hnone f). rewrite ownership_after_lookup in Hnone by done.
    by destruct (decide (f ∈ files)).
Qed.

(** ** The loop over the files of a commit *)

Section PipelineFacts.
Context (E : Env).

Lemma foldl_file_step_counter (c : Commit) (l : list (string * FileStat))
    (ls : LoopState) :
  file_change_counter (foldl (file_step E c) ls l) =
    foldl counter_incr (file_change_counter ls) l.*1.
Proof.
  revert ls. induction l as [|e l IH]; intros ls; [done|].
  cbn [foldl fmap list_fmap]. by rewrite IH.
Qed.

Lemma foldl_file_step_ownership (c : Commit) (l : list (string * FileStat))
    (ls : LoopState) :
  loop_ownership (foldl (file_step E c) ls l) =
    ownership_after (author_email c) l.*1 (loop_ownership ls).
Proof.
  revert ls. induction l as [|e l IH]; intros ls; [done|].
  cbn [foldl fmap list_fmap]. by rewrite IH.
Qed.

Lemma file_loop_counter (c : Commit) (own : gmap string (gset string)) :
  file_change_counter (file_loop E c own) = (λ _, 1) <$> stats_files c.
Proof.
  unfold file_loop. rewrite foldl_file_step_counter. cbn [file_change_counter].
  apply map_eq. intros f.
  rewrite foldl_counter_incr_lookup by apply NoDup_fst_map_to_list.
  rewrite lookup_fmap. unfold counter_get. rewrite lookup_empty. cbn [default].
  destruct (stats_files c !! f) as [stat|] eqn:Hf; cbn [fmap option_fmap option_map].
  - rewrite decide_True; [done|].
    apply list_elem_of_fmap. exists (f, stat). split; [done|].
    by apply elem_of_map_to_list.
  - rewrite decide_False; [done|].
    intros ([f' stat] & Heq & Hin)%list_elem_of_fmap. cbn in Heq. subst f'.
    apply elem_of_map_to_list in Hin. congruence.
Qed.

Lemma file_loop_ownership (c : Commit) (own : gmap string (gset string)) :
  loop_ownership (file_loop E c own) =
    ownership_after (author_email c) (map_to_list (stats_files c)).*1 own.
Proof. unfold file_loop. by rewrite foldl_file_step_ownership. Qed.

Lemma elem_of_changed_files (c : Commit) (f : string) :
  f ∈ (map_to_list (stats_files c)).*1 ↔ is_Some (stats_files c !! f).
Proof.
  rewrite list_elem_of_fmap. split.
  - intros ([f' stat] & -> & Hin). apply elem_of_map_to_list in Hin. by exists stat.
  - intros [stat Hf]. exists (f, stat). split; [done|]. by apply elem_of_map_to_list.
Qed.

Lemma changed_files_nil (c : Commit) :
  (map_to_list (stats_files c)).*1 = [] ↔ stats_files c = ∅.
Proof.
  split.
  - intros H. apply fmap_nil_inv in H. by apply map_to_list_empty_iff.
  - intros ->. by rewrite map_to_list_empty.
Qed.

(** Every file of the commit is counted once, so the entropy handed to the
    record is that of [n] equal counts. *)
Lemma calculate_entropy_file_loop (c : Commit) (own : gmap string (gset string)) :
  calculate_entropy (file_change_counter (file_loop E c own)) =
    Ok (entropy_of_file_count (size (stats_files c))).
Proof.
  rewrite file_loop_counter.
  destruct (decide (stats_files c = ∅)) as [Hempty|Hne].
  - rewrite Hempty, fmap_empty, map_size_empty. cbn [entropy_of_file_count].
    apply calculate_entropy_zero_total. by rewrite dict_values_empty.
  - rewrite (calculate_entropy_equal_counts _ 1); [| |lia|].
    + rewrite map_size_fmap.
      destruct (size (stats_files c)) eqn:Hsz; [|done].
      by apply map_size_empty_inv in Hsz.
    + intros Hf. by apply fmap_empty_inv in Hf.
    + intros f x. rewrite lookup_fmap.
      destruct (stats_files c !! f); cbn; congruence.
Qed.
End PipelineFacts.

(** ** One commit *)

Section CommitFacts.
Context (E : Env).

Lemma process_commit_skip (st : WalkState) (c : Commit) :
  qualifying_date E c = None → process_commit E st c = Ok st.
Proof. intros H. unfold process_commit. by rewrite H. Qed.

(** A qualifying commit is folded in and its record appended, as soon as
    some file has been seen in the walk. *)
Lemma process_commit_emit (st : WalkState) (c : Commit) (date : Z) :
  qualifying_date E c = Some date →
  stats_files c ≠ ∅ ∨ file_ownership st ≠ ∅ →
  let ls := file_loop E c (file_ownership st) in
  process_commit E st c =
    Ok {| data := data st ++
            [make_record c date (sums ls)
               (entropy_of_file_count (size (stats_files c)))
               (counter_get (commit_counts_by_author st) (author_email c) + 1)
               (IZR (total_owners (loop_ownership ls)) /
                IZR (Z.of_nat (size (loop_ownership ls))))%R];
          file_ownership := loop_ownership ls;
          commit_counts_by_author :=
            counter_incr (commit_counts_by_author st) (author_email c) |}.
Proof.
  intros Hq Hseen ls. subst ls. unfold process_commit. rewrite Hq. cbv zeta.
  rewrite calculate_entropy_file_loop. cbn [mbind result_bind].
  rewrite py_truediv_ok.
  - cbn [mbind result_bind]. by rewrite counter_get_incr_eq.
  - assert (loop_ownership (file_loop E c (file_ownership st)) ≠ ∅) as Hne.
    { rewrite file_loop_ownership.
      apply ownership_after_nonempty; [apply NoDup_fst_map_to_list|].
      destruct Hseen as [Hfiles|Hown]; [left|by right].
      by rewrite changed_files_nil. }
    intros Hz. apply Hne, map_size_empty_inv. lia.
Qed.

(** With no file seen so far and none in the commit, the division of the
    ownership mean raises. *)
Lemma process_commit_no_file_seen (st : WalkState) (c : Commit) (date : Z) :
  qualifying_date E c = Some date →
  stats_files c = ∅ → file_ownership st = ∅ →
  process_commit E st c = Raise ZeroDivisionError.
Proof.
  intros Hq Hfiles Hown. unfold process_commit. rewrite Hq. cbv zeta.
  rewrite calculate_entropy_file_loop. cbn [mbind result_bind].
  rewrite file_loop_ownership, Hfiles, Hown, map_to_list_empty.
  reflexivity.
Qed.

Lemma process_commit_inv (st st' : WalkState) (c : Commit) :
  process_commit E st c = Ok st' →
  (qualifying_date E c = None ∧ st' = st) ∨
  (∃ date r,
     qualifying_date E c = Some date ∧
     (stats_files c ≠ ∅ ∨ file_ownership st ≠ ∅) ∧
     data st' = data st ++ [r] ∧
     r = make_record c date (sums (file_loop E c (file_ownership st)))
           (entropy_of_file_count (size (stats_files c)))
           (counter_get (commit_counts_by_author st) (author_email c) + 1)
           (unique_authors_per_file_avg r) ∧
     file_ownership st' =
       ownership_after (author_email c) (map_to_list (stats_files c)).*1
         (file_ownership st) ∧
     commit_counts_by_author st' =
       counter_incr (commit_counts_by_author st) (author_email c)).
Proof.
  intros Hstep.
  destruct (qualifying_date E c) as [date|] eqn:Hq.
  - right.
    destruct (decide (stats_files c = ∅)) as [Hfiles|Hfiles];
      [destruct (decide (file_ownership st = ∅)) as [Hown|Hown]|].
    + by rewrite (process_commit_no_file_seen _ _ _ Hq Hfiles Hown) in Hstep.
    + rewrite (process_commit_emit _ _ _ Hq) in Hstep by (by right).
      injection Hstep as <-. eexists date, _. cbn.
      rewrite file_loop_ownership. auto 10.
    + rewrite (process_commit_emit _ _ _ Hq) in Hstep by (by left).
      injection Hstep as <-. eexists date, _. cbn.
      rewrite file_loop_ownership. auto 10.
  - left. rewrite process_commit_skip in Hstep by done. by injection Hstep as <-.
Qed.
End CommitFacts.

(** ** The walk *)

Section WalkFacts.
Context (E : Env).

Lemma qualifying_date_Some (c : Commit) (date : Z) :
  qualifying_date E c = Some date ↔
  fromtimestamp E (committed_date c) = Ok date ∧ ¬ date < one_year_ago E.
Proof.
  unfold qualifying_date.
  destruct (fromtimestamp E (committed_date c)) as [d|e].
  - destruct (Z.ltb_spec d (one_year_ago E)) as [Hlt|Hge]; split.
    + discriminate.
    + intros [[= ->] Hn]. lia.
    + intros [= ->]. split; [done|lia].
    + by intros [[= ->] _].
  - split; [discriminate|]. by intros [? _].
Qed.

Lemma qualifying_date_None (c : Commit) :
  qualifying_date E c = None ↔
  match fromtimestamp E (committed_date c) with
  | Raise _ => True
  | Ok date => date < one_year_ago E
  end.
Proof.
  unfold qualifying_date.
  destruct (fromtimestamp E (committed_date c)) as [d|e]; [|done].
  destruct (Z.ltb_spec d (one_year_ago E)); [done|]. split; [done|lia].
Qed.

Lemma walk_from_skip (st : WalkState) (c : Commit) (rest : list Commit) :
  qualifying_date E c = None → walk_from E st (c :: rest) = walk_from E st rest.
Proof. intros H. cbn [walk_from]. by rewrite process_commit_skip. Qed.

Lemma walk_from_skip_all (st : WalkState) (skipped rest : list Commit) :
  Forall (λ c, qualifying_date E c = None) skipped →
  walk_from E st (skipped ++ rest) = walk_from E st rest.
Proof.
  induction 1 as [|c skipped Hc _ IH]; [done|].
  cbn [app]. by rewrite walk_from_skip.
Qed.

Lemma walk_from_cons_inv (st st' : WalkState) (c : Commit) (rest : list Commit) :
  walk_from E st (c :: rest) = Ok st' →
  ∃ st1, process_commit E st c = Ok st1 ∧ walk_from E st1 rest = Ok st'.
Proof.
  cbn [walk_from]. destruct (process_commit E st c) as [st1|e]; [|discriminate].
  cbn [mbind result_bind]. eauto.
Qed.

(** The first commit that passes the date filter changes no file: the walk
    ends with the exception of the ownership mean. *)
Lemma walk_first_commit_without_files (skipped rest : list Commit) (c : Commit) :
  Forall (λ c, qualifying_date E c = None) skipped →
  is_Some (qualifying_date E c) →
  stats_files c = ∅ →
  walk E (skipped ++ c :: rest) = Raise ZeroDivisionError.
Proof.
  intros Hskip [date Hq] Hfiles. unfold walk.
  rewrite walk_from_skip_all by done. cbn [walk_from].
  by rewrite (process_commit_no_file_seen E _ _ date).
Qed.

(** The walk goes through when every commit changes at least one file. *)
Lemma walk_from_total (st : WalkState) (commits : list Commit) :
  Forall (λ c, stats_files c ≠ ∅) commits →
  ∃ st', walk_from E st commits = Ok st'.
Proof.
  intros Hall. revert st.
  induction Hall as [|c commits Hc _ IH]; intros st; [by exists st|].
  cbn [walk_from]. destruct (qualifying_date E c) as [date|] eqn:Hq.
  - rewrite (process_commit_emit E _ _ date) by auto.
    cbn [mbind result_bind]. apply IH.
  - rewrite process_commit_skip by done. cbn [mbind result_bind]. apply IH.
Qed.
End WalkFacts.

(** ** The [try] block of one file *)

Section FileFacts.
Context (E : Env).

Lemma block_eval_ok {A B} (a : A) (k : A → Block B) (s : CommitSums) :
  (eval (Ok a) ≫= k) s = k a s.
Proof. reflexivity. Qed.

Lemma block_eval_raise {A B} (e : exn) (k : A → Block B) (s : CommitSums) :
  (eval (Raise e) ≫= k) s = (Raise e, s).
Proof. reflexivity. Qed.

Lemma block_assign {B} (f : CommitSums → CommitSums) (k : unit → Block B)
    (s : CommitSums) :
  (assign f ≫= k) s = k () (f s).
Proof. reflexivity. Qed.

(** The content cannot be read: nothing has been assigned yet. *)
Lemma analyze_file_retrieval_fails (c : Commit) (file : string) (stat : FileStat)
    (s : CommitSums) (e : exn) :
  blob_source c file = Raise e →
  try_except_continue (analyze_file E c file stat) s = s.
Proof.
  intros H. unfold try_except_continue, analyze_file.
  by rewrite H, block_eval_raise.
Qed.

Lemma file_step_retrieval_fails (c : Commit) (ls : LoopState)
    (entry : string * FileStat) (e : exn) :
  blob_source c entry.1 = Raise e → sums (file_step E c ls entry) = sums ls.
Proof.
  intros H. cbn [file_step sums].
  destruct (accepted_extension entry.1); [|done].
  by eapply analyze_file_retrieval_fails.
Qed.

(** The complexity measure raises: the churn and the file count of lines
    168-170 have been assigned, the four metric sums have not. *)
Lemma analyze_file_complexity_fails (c : Commit) (file source : string)
    (stat : FileStat) (s : CommitSums) (e : exn) :
  blob_source c file = Ok source →
  measure_cyclomatic_complexity E source (splitext_ext E file) = Raise e →
  try_except_continue (analyze_file E c file stat) s =
    add_file_count 1
      (add_churn_del (deletions stat) (add_churn_add (insertions stat) s)).
Proof.
  intros Hsrc Hcc. unfold try_except_continue, analyze_file.
  rewrite Hsrc, block_eval_ok, !block_assign. cbv zeta.
  by rewrite Hcc, block_eval_raise.
Qed.

Lemma foldl_file_step_sums_excluded (c : Commit) (l : list (string * FileStat))
    (ls : LoopState) :
  Forall (λ entry, accepted_extension entry.1 = false) l →
  sums (foldl (file_step E c) ls l) = sums ls.
Proof.
  intros Hall. revert ls.
  induction Hall as [|entry l Hentry _ IH]; intros ls; [done|].
  cbn [foldl]. rewrite IH. cbn [file_step sums]. by rewrite Hentry.
Qed.

(** Files outside the accepted extensions and files whose content cannot be
    read leave the sums as they are. *)
Lemma foldl_file_step_sums_unread (c : Commit) (l : list (string * FileStat))
    (ls : LoopState) :
  Forall (λ entry, accepted_extension entry.1 = false ∨
                   ∃ e, blob_source c entry.1 = Raise e) l →
  sums (foldl (file_step E c) ls l) = sums ls.
Proof.
  intros Hall. revert ls.
  induction Hall as [|entry l Hentry _ IH]; intros ls; [done|].
  cbn [foldl]. rewrite IH. destruct Hentry as [Hext|[e He]].
  - cbn [file_step sums]. by rewrite Hext.
  - by eapply file_step_retrieval_fails.
Qed.

Lemma file_loop_sums_excluded (c : Commit) (own : gmap string (gset string)) :
  (∀ file, is_Some (stats_files c !! file) → accepted_extension file = false) →
  sums (file_loop E c own) = zero_sums.
Proof.
  intros Hexcl. unfold file_loop. rewrite foldl_file_step_sums_excluded; [done|].
  apply Forall_forall. intros [file stat] Hin. cbn.
  apply Hexcl. apply elem_of_map_to_list in Hin. by exists stat.
Qed.
End FileFacts.

(** ** What a walk leaves in the accumulators and in the record list *)

Lemma count_author_cons (a : string) (c : Commit) (l : list Commit) :
  count_author a (c :: l) =
    if decide (author_email c = a) then S (count_author a l) else count_author a l.
Proof.
  unfold count_author. rewrite filter_cons. by destruct (decide (author_email c = a)).
Qed.

Lemma count_author_all (a : string) (l : list Commit) :
  Forall (λ c, author_email c = a) l → count_author a l = length l.
Proof.
  induction 1 as [|c l Hc _ IH]; [done|].
  rewrite count_author_cons, decide_True by done. cbn. by rewrite IH.
Qed.

Section RecordFacts.
Context (E : Env).

Lemma qualifying_cons_Some (c : Commit) (rest : list Commit) (date : Z) :
  qualifying_date E c = Some date →
  qualifying E (c :: rest) = c :: qualifying E rest.
Proof. intros H. unfold qualifying. rewrite filter_cons_True; [done|]. by exists date. Qed.

Lemma qualifying_cons_None (c : Commit) (rest : list Commit) :
  qualifying_date E c = None → qualifying E (c :: rest) = qualifying E rest.
Proof.
  intros H. unfold qualifying. rewrite filter_cons_False; [done|].
  rewrite H. by intros [? ?].
Qed.

Lemma process_commit_ownership_mono (st st' : WalkState) (c : Commit) (f : string) :
  process_commit E st c = Ok st' →
  owners (file_ownership st) f ⊆ owners (file_ownership st') f.
Proof.
  intros Hstep.
  destruct (process_commit_inv E _ _ _ Hstep)
    as [[_ ->]|(date & r & _ & _ & _ & _ & Hown & _)]; [done|].
  rewrite Hown, ownership_after_owners by apply NoDup_fst_map_to_list.
  destruct (decide _); [apply union_subseteq_l|done].
Qed.

Lemma process_commit_author_added (st st' : WalkState) (c : Commit) (f : string) :
  process_commit E st c = Ok st' →
  is_Some (qualifying_date E c) →
  is_Some (stats_files c !! f) →
  author_email c ∈ owners (file_ownership st') f.
Proof.
  intros Hstep [date Hq] Hf.
  destruct (process_commit_inv E _ _ _ Hstep)
    as [[Hnone _]|(date' & r & _ & _ & _ & _ & Hown & _)]; [congruence|].
  rewrite Hown, ownership_after_owners by apply NoDup_fst_map_to_list.
  rewrite decide_True by (by apply elem_of_changed_files).
  apply elem_of_union_r, elem_of_singleton_2. reflexivity.
Qed.

Lemma walk_from_ownership_mono (st st' : WalkState) (commits : list Commit)
    (f : string) :
  walk_from E st commits = Ok st' →
  owners (file_ownership st) f ⊆ owners (file_ownership st') f.
Proof.
  revert st. induction commits as [|c rest IH]; intros st Hwalk.
  - cbn in Hwalk. by apply Ok_inj in Hwalk as ->.
  - apply walk_from_cons_inv in Hwalk as (st1 & Hstep & Hrest).
    etrans; [by eapply process_commit_ownership_mono|by apply IH].
Qed.

(** The records appended by a walk, one per qualifying commit, with the
    author counter each of them carries. *)
Lemma walk_from_records (st st' : WalkState) (commits : list Commit) :
  walk_from E st commits = Ok st' →
  ∃ rs,
    data st' = data st ++ rs ∧
    Forall2 (λ c r, commit_hash r = hexsha c ∧ author r = author_email c ∧
                    qualifying_date E c = Some (commit_date r))
            (qualifying E commits) rs ∧
    (∀ a, counter_get (commit_counts_by_author st') a =
            counter_get (commit_counts_by_author st) a +
            Z.of_nat (count_author a (qualifying E commits))) ∧
    (∀ i r c,
       rs !! i = Some r → qualifying E commits !! i = Some c →
       commit_frequency_by_author r =
         counter_get (commit_counts_by_author st) (author_email c) +
         Z.of_nat (count_author (author_email c)
                     (take (S i) (qualifying E commits)))).
Proof.
  revert st. induction commits as [|c rest IH]; intros st Hwalk.
  - cbn in Hwalk. apply Ok_inj in Hwalk as ->. exists [].
    split; [by rewrite app_nil_r|]. split; [constructor|].
    split; [intros a; cbn; lia|]. by intros i r c [=].
  - apply walk_from_cons_inv in Hwalk as (st1 & Hstep & Hrest).
    destruct (IH _ Hrest) as (rs & Hdata & Hall & Hcount & Hfreq).
    destruct (process_commit_inv E _ _ _ Hstep)
      as [[Hnone ->]|(date & r0 & Hq & _ & Hdata1 & Hr0 & _ & Hcounts1)].
    + rewrite qualifying_cons_None by done. eauto.
    + rewrite (qualifying_cons_Some _ _ date) by done.
      assert (Hfreq0 : commit_frequency_by_author r0 =
                counter_get (commit_counts_by_author st) (author_email c) + 1).
      { by rewrite Hr0. }
      assert (Hshift : ∀ a,
                counter_get (commit_counts_by_author st1) a =
                counter_get (commit_counts_by_author st) a +
                (if decide (author_email c = a) then 1 else 0)).
      { intros a. rewrite Hcounts1. destruct (decide (author_email c = a)) as [<-|Hne].
        - apply counter_get_incr_eq.
        - rewrite counter_get_incr_ne by done. lia. }
      exists (r0 :: rs). split; [|split; [|split]].
      * by rewrite Hdata, Hdata1, <- app_assoc.
      * constructor; [|done]. rewrite Hr0. cbn. by rewrite Hq.
      * intros a. rewrite Hcount, Hshift, count_author_cons.
        destruct (decide (author_email c = a)); lia.
      * intros [|i] r c'; cbn [lookup list_lookup].
        -- intros [= <-] [= <-]. rewrite Hfreq0.
           change (take 1 (c :: qualifying E rest)) with [c].
           rewrite count_author_cons, decide_True by done.
           change (count_author (author_email c) []) with 0%nat. lia.
        -- intros Hr Hc'. rewrite (Hfreq _ _ _ Hr Hc'), Hshift.
           rewrite firstn_cons, count_author_cons.
           destruct (decide (author_email c = author_email c')); lia.
Qed.
End RecordFacts.

(** ** Assembly *)

Section AssemblyFacts.
Context (E : Env) `{!SortValues}.

Lemma assemble_nil : assemble [] = Raise KeyError.
Proof. reflexivity. Qed.

Lemma assemble_cons (r : CommitMetricRecord) (rows : list CommitMetricRecord) :
  assemble (r :: rows) =
    Ok {| df_columns := record_keys; df_rows := sort_values (r :: rows) |}.
Proof. reflexivity. Qed.

Lemma analyze_repository_inv (commits : list Commit) (df : DataFrame) :
  analyze_repository E commits = Ok df →
  ∃ st, walk E commits = Ok st ∧ data st ≠ [] ∧
        df_rows df = sort_values (data st).
Proof.
  unfold analyze_repository.
  destruct (walk E commits) as [st|e]; [|discriminate].
  cbn [mbind result_bind]. destruct (data st) as [|r rows] eqn:Hdata.
  - by rewrite assemble_nil.
  - rewrite assemble_cons. intros Hdf. apply Ok_inj in Hdf as <-.
    exists st. by rewrite Hdata.
Qed.

Lemma analyze_repository_walk (commits : list Commit) (st : WalkState) :
  walk E commits = Ok st → data st ≠ [] →
  analyze_repository E commits =
    Ok {| df_columns := record_keys; df_rows := sort_values (data st) |}.
Proof.
  intros Hwalk Hne. unfold analyze_repository. rewrite Hwalk.
  cbn [mbind result_bind]. destruct (data st); [done|]. apply assemble_cons.
Qed.
End AssemblyFacts.

Section TableFacts.
Context (E : Env) `{!SortValues}.

Lemma walk_hashes (commits : list Commit) (st : WalkState) :
  walk E commits = Ok st →
  commit_hash <$> data st = hexsha <$> qualifying E commits.
Proof.
  intros Hwalk.
  destruct (walk_from_records E _ _ _ Hwalk) as (rs & Hdata & Hall & _).
  cbn in Hdata. rewrite Hdata. clear Hdata Hwalk.
  induction Hall as [|c r cs rs (Hhash & _) _ IH]; [done|].
  cbn [fmap list_fmap]. by rewrite Hhash, IH.
Qed.

Lemma qualifying_hashes_NoDup (commits : list Commit) :
  NoDup (hexsha <$> commits) → NoDup (hexsha <$> qualifying E commits).
Proof.
  intros Hnd. eapply sublist_NoDup; [exact Hnd|].
  apply fmap_sublist, sublist_filter.
Qed.

End TableFacts.

(** ** The sample walks, evaluated *)

(** Process the next sample commit, which changes at least one file. *)
Ltac emit_sample date :=
  rewrite (process_commit_emit Sample.env _ _ date);
  [|reflexivity|left; apply insert_non_empty];
  cbn [mbind result_bind].

(** Replace a closed integer expression by its value. *)
Ltac eval_nat t :=
  let v := eval vm_compute in t in
  replace t with v by (vm_compute; reflexivity).

Lemma walk_sample_history :
  ∃ r3 r2 r1 st,
    walk Sample.env Sample.history = Ok st ∧ data st = [r3; r2; r1] ∧
    (commit_hash r3 = "c3" ∧ commit_date r3 = 3000) ∧
    (commit_hash r2 = "c2" ∧ commit_date r2 = 2500) ∧
    (commit_hash r1 = "c1" ∧ commit_date r1 = 2000).
Proof.
  unfold walk, Sample.history. cbn [walk_from].
  emit_sample 3000. emit_sample 2500. emit_sample 2000.
  cbn [data initial_state app].
  eexists _, _, _, _. split; [reflexivity|]. split; [reflexivity|].
  repeat split.
Qed.

(** The two sample sorts on small tables whose dates are known. *)
Lemma merge_sort_values_descending3 (r3 r2 r1 : CommitMetricRecord) :
  commit_date r1 < commit_date r2 → commit_date r2 < commit_date r3 →
  @sort_values merge_sort_values [r3; r2; r1] = [r1; r2; r3].
Proof.
  intros H12 H23. cbn [sort_values merge_sort_values].
  unfold merge_sort. cbn [merge_sort_aux merge_list_to_stack merge_stack].
  cbn [list_merge]. unfold date_le_dec, date_le.
  repeat (rewrite ?decide_True, ?decide_False by lia; cbn [list_merge]).
  reflexivity.
Qed.

Lemma walk_sample_empty_second :
  ∃ r1 r2 st,
    walk Sample.env [Sample.c_code "c1" 2000 "ann" "x.py"; Sample.c_empty] = Ok st ∧
    data st = [r1; r2] ∧ commit_hash r2 = "e0" ∧ code_entropy r2 = 0%R.
Proof.
  unfold walk. cbn [walk_from].
  emit_sample 2000.
  rewrite (process_commit_emit Sample.env _ _ 2000); [|reflexivity|].
  - cbn [mbind result_bind data initial_state app].
    eexists _, _, _. split; [reflexivity|]. split; [reflexivity|].
    split; reflexivity.
  - right. cbn [file_ownership]. rewrite file_loop_ownership.
    apply ownership_after_nonempty; [apply NoDup_fst_map_to_list|].
    left. rewrite changed_files_nil. apply insert_non_empty.
Qed.

Lemma excluded_extensions_step :
  ∃ st' r,
    process_commit Sample.env initial_state Sample.c_docs = Ok st' ∧
    last (data st') = Some r.
Proof.
  emit_sample 2500.
  eexists _, _. split; [reflexivity|]. reflexivity.
Qed.

(** ** When [analyze_repository] returns *)

Section Outcome.
Context (E : Env) `{!SortValues}.

(** Once a file has been seen, every later commit is processed. *)
Lemma walk_from_seen (st : WalkState) (commits : list Commit) :
  file_ownership st ≠ ∅ →
  ∃ st', walk_from E st commits = Ok st' ∧ file_ownership st' ≠ ∅.
Proof.
  revert st. induction commits as [|c rest IH]; intros st Hseen; [by exists st|].
  cbn [walk_from]. destruct (qualifying_date E c) as [date|] eqn:Hq.
  - rewrite (process_commit_emit E _ _ date) by auto.
    cbn [mbind result_bind]. apply IH. cbn [file_ownership].
    rewrite file_loop_ownership.
    apply ownership_after_nonempty; [apply NoDup_fst_map_to_list|by right].
  - rewrite process_commit_skip by done. cbn [mbind result_bind]. by apply IH.
Qed.

Lemma walk_first_commit_with_files (commits rest : list Commit) (c : Commit) :
  qualifying E commits = c :: rest → stats_files c ≠ ∅ →
  ∃ st, walk E commits = Ok st.
Proof.
  unfold walk. generalize initial_state.
  induction commits as [|c0 commits IH]; intros st Hq Hfiles; [discriminate Hq|].
  destruct (qualifying_date E c0) as [date|] eqn:Hq0.
  - rewrite (qualifying_cons_Some E _ _ date) in Hq by done.
    injection Hq as -> _.
    cbn [walk_from]. rewrite (process_commit_emit E _ _ date) by auto.
    cbn [mbind result_bind].
    edestruct walk_from_seen as (st' & Hst' & _); [|by exists st'].
    cbn [file_ownership]. rewrite file_loop_ownership.
    apply ownership_after_nonempty; [apply NoDup_fst_map_to_list|].
    left. by rewrite changed_files_nil.
  - rewrite qualifying_cons_None in Hq by done.
    rewrite walk_from_skip by done. by apply IH.
Qed.

Lemma qualifying_split (commits : list Commit) (c : Commit) (rest : list Commit) :
  qualifying E commits = c :: rest →
  ∃ skipped later,
    commits = skipped ++ c :: later ∧
    Forall (λ c, qualifying_date E c = None) skipped ∧
    is_Some (qualifying_date E c).
Proof.
  induction commits as [|c0 commits IH]; intros Hq; [discriminate Hq|].
  destruct (qualifying_date E c0) as [date|] eqn:Hq0.
  - rewrite (qualifying_cons_Some E _ _ date) in Hq by done.
    injection Hq as -> _. exists [], commits.
    split; [done|]. split; [constructor|by exists date].
  - rewrite qualifying_cons_None in Hq by done.
    destruct (IH Hq) as (skipped & later & -> & Hskip & Hc).
    exists (c0 :: skipped), later. split; [done|]. split; [by constructor|done].
Qed.

(** The three outcomes of [analyze_repository], by the commits that pass the
    date filter: none, a first one without files, a first one with files. *)
Lemma analyze_repository_outcome (commits : list Commit) :
  match qualifying E commits with
  | [] => analyze_repository E commits = Raise KeyError
  | c :: _ =>
      if decide (stats_files c = ∅)
      then analyze_repository E commits = Raise ZeroDivisionError
      else ∃ df, analyze_repository E commits = Ok df ∧
                 length (df_rows df) = length (qualifying E commits)
  end.
Proof.
  destruct (qualifying E commits) as [|c rest] eqn:Hq.
  - assert (Hwalk : walk E commits = Ok initial_state).
    { unfold walk. rewrite <- (app_nil_r commits).
      rewrite walk_from_skip_all; [done|].
      apply Forall_forall. intros c Hc.
      destruct (qualifying_date E c) as [date|] eqn:Hdate; [|done].
      assert (c ∈ qualifying E commits) as Hin
        by (apply list_elem_of_filter; split; [by exists date|done]).
      rewrite Hq in Hin. by apply elem_of_nil in Hin. }
    unfold analyze_repository. by rewrite Hwalk.
  - destruct (decide (stats_files c = ∅)) as [Hfiles|Hfiles].
    + destruct (qualifying_split _ _ _ Hq) as (skipped & later & -> & Hskip & Hc).
      unfold analyze_repository.
      by rewrite (walk_first_commit_without_files E skipped later c).
    + destruct (walk_first_commit_with_files _ _ _ Hq Hfiles) as [st Hwalk].
      destruct (walk_from_records E _ _ _ Hwalk) as (rs & Hdata & Hall & _).
      cbn in Hdata. apply Forall2_length in Hall. rewrite Hq in Hall.
      assert (Hne : data st ≠ []).
      { rewrite Hdata. intros ->. discriminate Hall. }
      eexists. split; [by apply analyze_repository_walk|].
      cbn [df_rows]. by rewrite sort_values_perm, Hdata, <- Hall.
Qed.
End Outcome.

(** ** The scenario of the specification *)

(** Three commits by one author touching [x], then [x] and [y], then [y]:
    frequencies 1, 2, 3; entropies 0, 1, 0; ownership mean 1 throughout. *)
Lemma walk_sample_scenario :
  ∃ r1 r2 r3 st,
    walk Sample.env Sample.scenario = Ok st ∧ data st = [r1; r2; r3] ∧
    (commit_frequency_by_author r1 = 1 ∧ code_entropy r1 = 0%R ∧
     unique_authors_per_file_avg r1 = 1%R) ∧
    (commit_frequency_by_author r2 = 2 ∧ code_entropy r2 = 1%R ∧
     unique_authors_per_file_avg r2 = 1%R) ∧
    (commit_frequency_by_author r3 = 3 ∧ code_entropy r3 = 0%R ∧
     unique_authors_per_file_avg r3 = 1%R).
Proof.
  unfold walk, Sample.scenario. cbn [walk_from].
  emit_sample 2700. emit_sample 2600. emit_sample 2500.
  cbn [data initial_state app].
  eexists _, _, _, _. split; [reflexivity|]. split; [reflexivity|].
  cbn [make_record commit_frequency_by_author code_entropy
       unique_authors_per_file_avg file_ownership commit_counts_by_author].
  repeat match goal with
         | |- context [size ?m] => progress eval_nat (size m)
         | |- context [total_owners ?m] => progress eval_nat (total_owners m)
         | |- context [counter_get ?m ?k] => progress eval_nat (counter_get m k)
         end.
  cbn [entropy_of_file_count]. simpl INR.
  replace (1 + 1)%R with 2%R by lra.
  rewrite log2R_1, log2R_2.
  change (Z.of_nat 1) with 1. change (Z.of_nat 2) with 2.
  repeat split; try reflexivity; lra.
Qed.

(** * The claims *)

(** ** Division by an empty ownership accumulator *)

(** C1 (the code departs from the claim).  The ownership mean is the plain
    division of line 196: when the first commit inside the window changes no
    file the accumulator is empty, the division raises [ZeroDivisionError],
    and [analyze_repository] ends with that exception instead of emitting a
    record whose mean is 0. *)
Theorem ownership_mean_of_no_files_raises :
  ∀ S : SortValues,
    walk Sample.env [Sample.c_empty] = Raise ZeroDivisionError ∧
    @analyze_repository Sample.env S [Sample.c_empty] = Raise ZeroDivisionError.
Proof.
  intros S.
  assert (H : walk Sample.env [Sample.c_empty] = Raise ZeroDivisionError).
  { apply (walk_first_commit_without_files Sample.env [] []); [constructor| |done].
    by exists 2000. }
  split; [exact H|]. unfold analyze_repository. by rewrite H.
Qed.

(** ** Files whose analysis fails *)

(** C2 (the code departs from the claim).  A Python file whose content is
    read but whose complexity analysis raises has already been counted when
    the exception is caught: the record of the commit carries the file in
    [files_changed], [lines_added] and [lines_deleted]; only the four metric
    sums omit it. *)
Theorem failed_analysis_is_still_counted :
  ∃ st r,
    walk Sample.env [Sample.c_syntax] = Ok st ∧ data st = [r] ∧
    files_changed r = 1 ∧ lines_added r = 3 ∧ lines_deleted r = 2 ∧
    total_cyclomatic_complexity r = 0 ∧
    total_maintainability_index r = 0%R ∧
    total_cohesion_metric_lcom r = 0 ∧
    total_coupling_metric_imports r = 0.
Proof.
  unfold walk. cbn [walk_from].
  rewrite (process_commit_emit Sample.env _ _ 2000);
    [|reflexivity|left; apply insert_non_empty].
  cbn [mbind result_bind]. eexists _, _.
  split; [reflexivity|]. split; [reflexivity|].
  cbn [make_record files_changed lines_added lines_deleted
       total_cyclomatic_complexity total_maintainability_index
       total_cohesion_metric_lcom total_coupling_metric_imports].
  repeat split; vm_compute; reflexivity.
Qed.

(** ** A walk without qualifying commits *)

(** C10.  When every commit is skipped by the date filter (its timestamp
    cannot be converted, or it is older than the window), the walk ends with
    an empty record list and the assembly raises [KeyError] on the
    [commit_date] column: no zero-row table is returned. *)
Theorem no_qualifying_commit_raises (E : Env) (S : SortValues)
    (commits : list Commit) :
  Forall (λ c, match fromtimestamp E (committed_date c) with
               | Raise _ => True
               | Ok date => date < one_year_ago E
               end) commits →
  (∃ st, walk E commits = Ok st ∧ data st = []) ∧
  analyze_repository E commits = Raise KeyError.
Proof.
  intros Hall.
  assert (Hwalk : walk E commits = Ok initial_state).
  { unfold walk. rewrite <- (app_nil_r commits).
    rewrite walk_from_skip_all; [done|].
    eapply Forall_impl; [exact Hall|]. intros c Hc. by apply qualifying_date_None. }
  split; [by exists initial_state|].
  unfold analyze_repository. by rewrite Hwalk.
Qed.

Lemma no_qualifying_commit_raises_witness :
  (∃ st, walk Sample.env [Sample.c_stale; Sample.c_undated] = Ok st ∧ data st = []) ∧
  @analyze_repository Sample.env merge_sort_values
    [Sample.c_stale; Sample.c_undated] = Raise KeyError.
Proof.
  apply (no_qualifying_commit_raises Sample.env merge_sort_values).
  repeat constructor.
Defined.

(** ** Commits outside the accepted extensions *)

(** C8.  A qualifying commit none of whose changed files ends in [.py] or
    [.java] appends exactly one record, with [files_changed] and every
    content-derived sum at 0, and with the entropy of the counter that holds
    every changed file of the commit.  (The record is appended as soon as one
    file has been seen in the walk, this commit included.) *)
Theorem excluded_extensions_give_zero_sums (E : Env) (st : WalkState)
    (c : Commit) (date : Z) :
  qualifying_date E c = Some date →
  (∀ file, is_Some (stats_files c !! file) → accepted_extension file = false) →
  stats_files c ≠ ∅ ∨ file_ownership st ≠ ∅ →
  ∃ st' r,
    process_commit E st c = Ok st' ∧ data st' = data st ++ [r] ∧
    commit_hash r = hexsha c ∧
    files_changed r = 0 ∧ lines_added r = 0 ∧ lines_deleted r = 0 ∧
    total_cyclomatic_complexity r = 0 ∧ total_maintainability_index r = 0%R ∧
    total_cohesion_metric_lcom r = 0 ∧ total_coupling_metric_imports r = 0 ∧
    dom (file_change_counter (file_loop E c (file_ownership st))) =
      dom (stats_files c) ∧
    calculate_entropy (file_change_counter (file_loop E c (file_ownership st))) =
      Ok (code_entropy r).
Proof.
  intros Hq Hexcl Hseen.
  rewrite (process_commit_emit E _ _ date) by done.
  eexists _, _. split; [reflexivity|]. split; [reflexivity|].
  cbn [make_record commit_hash files_changed lines_added lines_deleted
       total_cyclomatic_complexity total_maintainability_index
       total_cohesion_metric_lcom total_coupling_metric_imports code_entropy].
  rewrite file_loop_sums_excluded by done.
  rewrite calculate_entropy_file_loop, file_loop_counter, dom_fmap_L.
  by repeat split.
Qed.

Lemma excluded_extensions_give_zero_sums_witness :
  ∃ st' r,
    process_commit Sample.env initial_state Sample.c_docs = Ok st' ∧
    data st' = [r] ∧ commit_hash r = "d0" ∧
    files_changed r = 0 ∧ lines_added r = 0 ∧ lines_deleted r = 0 ∧
    total_cyclomatic_complexity r = 0 ∧ total_maintainability_index r = 0%R ∧
    total_cohesion_metric_lcom r = 0 ∧ total_coupling_metric_imports r = 0 ∧
    code_entropy r = log2R 2.
Proof.
  destruct (excluded_extensions_give_zero_sums Sample.env initial_state
              Sample.c_docs 2500) as (st' & r & Hstep & Hdata & Hrest).
  - reflexivity.
  - intros file [stat Hfile]. revert Hfile. cbn [Sample.c_docs stats_files].
    rewrite !lookup_insert, lookup_singleton.
    repeat case_decide; subst; (reflexivity || discriminate).
  - left. apply insert_non_empty.
  - exists st', r. split; [exact Hstep|]. split; [exact Hdata|].
    destruct Hrest as (? & ? & ? & ? & ? & ? & ? & ? & _ & Hentropy).
    repeat (split; [assumption|]).
    rewrite calculate_entropy_file_loop in Hentropy.
    apply Ok_inj in Hentropy. rewrite <- Hentropy.
    replace (size (stats_files Sample.c_docs)) with 2%nat by (vm_compute; reflexivity).
    cbn [entropy_of_file_count]. f_equal; simpl; lra.
Defined.

(** ** The ownership accumulator *)

(** C7.  Across any stretch of the walk the set of authors recorded for a
    file only grows (so its size does not decrease), and once a qualifying
    commit has been processed its author belongs to the set of every file the
    commit changed, whatever the extension of the file. *)
Theorem file_ownership_grows (E : Env) (st st' : WalkState)
    (commits : list Commit) :
  walk_from E st commits = Ok st' →
  (∀ file,
     owners (file_ownership st) file ⊆ owners (file_ownership st') file ∧
     (size (owners (file_ownership st) file) ≤
      size (owners (file_ownership st') file))%nat) ∧
  (∀ c file,
     c ∈ commits → is_Some (qualifying_date E c) →
     is_Some (stats_files c !! file) →
     author_email c ∈ owners (file_ownership st') file).
Proof.
  intros Hwalk. split.
  - intros file.
    assert (owners (file_ownership st) file ⊆ owners (file_ownership st') file)
      by (by eapply walk_from_ownership_mono).
    split; [done|by apply subseteq_size].
  - revert st Hwalk. induction commits as [|c0 rest IH]; intros st Hwalk c file Hc Hq Hfile.
    + by apply elem_of_nil in Hc.
    + apply walk_from_cons_inv in Hwalk as (st1 & Hstep & Hrest).
      apply elem_of_cons in Hc as [->|Hc].
      * eapply (walk_from_ownership_mono E _ _ _ file Hrest).
        by eapply process_commit_author_added.
      * by eapply IH.
Qed.

Lemma file_ownership_grows_witness :
  ∃ st',
    walk_from Sample.env initial_state [Sample.c_docs; Sample.c_deleted] = Ok st' ∧
    "bob" ∈ owners (file_ownership st') "README.md" ∧
    "ann" ∈ owners (file_ownership st') "gone.py" ∧
    (size (owners (file_ownership initial_state) "README.md") ≤
     size (owners (file_ownership st') "README.md"))%nat.
Proof.
  destruct (walk_from_total Sample.env initial_state
              [Sample.c_docs; Sample.c_deleted]) as [st' Hwalk].
  { repeat constructor; apply insert_non_empty. }
  destruct (file_ownership_grows Sample.env _ _ _ Hwalk) as [Hmono Hadded].
  exists st'. split; [exact Hwalk|]. split; [|split].
  - apply (Hadded Sample.c_docs "README.md").
    + apply list_elem_of_here.
    + by exists 2500.
    + by exists (Sample.stat 4 1).
  - apply (Hadded Sample.c_deleted "gone.py").
    + apply list_elem_of_further, list_elem_of_here.
    + by exists 2000.
    + by exists (Sample.stat 0 7).
  - apply Hmono.
Defined.

(** ** The per-author commit counter *)

(** C6.  Across any stretch of the walk the counter of every author does not
    decrease and grows by exactly the number of qualifying commits of that
    author; one record is appended per qualifying commit and carries the
    counter after the increment for its own commit.  Hence, when the counter
    of an author starts at 0 and all qualifying commits are by that author,
    the n-th appended record carries n. *)
Theorem author_counter_includes_current_commit (E : Env) (st st' : WalkState)
    (commits : list Commit) :
  walk_from E st commits = Ok st' →
  (∀ a, counter_get (commit_counts_by_author st) a <=
        counter_get (commit_counts_by_author st') a) ∧
  (∀ a, counter_get (commit_counts_by_author st') a =
        counter_get (commit_counts_by_author st) a +
        Z.of_nat (count_author a (qualifying E commits))) ∧
  ∃ rs,
    data st' = data st ++ rs ∧
    length rs = length (qualifying E commits) ∧
    (∀ i r c,
       rs !! i = Some r → qualifying E commits !! i = Some c →
       author r = author_email c ∧
       commit_frequency_by_author r =
         counter_get (commit_counts_by_author st) (author_email c) +
         Z.of_nat (count_author (author_email c)
                     (take (S i) (qualifying E commits)))) ∧
    (∀ a,
       counter_get (commit_counts_by_author st) a = 0 →
       Forall (λ c, author_email c = a) (qualifying E commits) →
       ∀ i r, rs !! i = Some r → commit_frequency_by_author r = Z.of_nat (S i)).
Proof.
  intros Hwalk.
  destruct (walk_from_records E _ _ _ Hwalk) as (rs & Hdata & Hall & Hcount & Hfreq).
  assert (Hlen : length rs = length (qualifying E commits))
    by (symmetry; by eapply Forall2_length).
  split; [intros a; rewrite Hcount; lia|]. split; [exact Hcount|].
  exists rs. split; [exact Hdata|]. split; [exact Hlen|]. split.
  - intros i r c Hr Hc. split; [|by eapply Hfreq].
    by destruct (Forall2_lookup_lr _ _ _ _ _ _ Hall Hc Hr) as (_ & ? & _).
  - intros a Hzero Hsame i r Hr.
    assert (is_Some (qualifying E commits !! i)) as [c Hc].
    { apply lookup_lt_is_Some. rewrite <- Hlen. by eapply lookup_lt_Some. }
    assert (author_email c = a) as Ha.
    { by eapply (proj1 (Forall_lookup _ _) Hsame). }
    rewrite (Hfreq _ _ _ Hr Hc), Ha, Hzero.
    rewrite count_author_all by (by apply Forall_take).
    rewrite length_take.
    assert (i < length (qualifying E commits))%nat by (by eapply lookup_lt_Some).
    lia.
Qed.

Lemma author_counter_includes_current_commit_witness :
  ∃ st' r1 r2 r3,
    walk_from Sample.env initial_state Sample.history = Ok st' ∧
    data st' = [r1; r2; r3] ∧
    commit_frequency_by_author r1 = 1 ∧
    commit_frequency_by_author r2 = 2 ∧
    commit_frequency_by_author r3 = 3 ∧
    counter_get (commit_counts_by_author st') "ann" = 3.
Proof.
  assert (Hq : qualifying Sample.env Sample.history = Sample.history).
  { unfold qualifying, Sample.history.
    rewrite !filter_cons_True; [done|by exists 2000|by exists 2500|by exists 3000]. }
  assert (Hall : Forall (λ c, author_email c = "ann")
                   (qualifying Sample.env Sample.history)).
  { rewrite Hq. by repeat constructor. }
  destruct (walk_from_total Sample.env initial_state Sample.history) as [st' Hwalk].
  { repeat constructor; apply insert_non_empty. }
  destruct (author_counter_includes_current_commit Sample.env _ _ _ Hwalk)
    as (_ & Hcount & rs & Hdata & Hlen & _ & Hsame).
  specialize (Hsame "ann" eq_refl Hall).
  rewrite Hq in Hlen, Hcount.
  destruct rs as [|r1 [|r2 [|r3 [|r4 rs]]]]; try discriminate Hlen.
  exists st', r1, r2, r3.
  split; [exact Hwalk|].
  split; [exact Hdata|].
  split; [exact (Hsame 0%nat r1 eq_refl)|].
  split; [exact (Hsame 1%nat r2 eq_refl)|].
  split; [exact (Hsame 2%nat r3 eq_refl)|].
  rewrite Hcount. reflexivity.
Defined.

(** ** The final table *)

(** C3.  Whatever the order in which the commits are walked, the table
    returned by [analyze_repository] is in ascending order of [commit_date];
    it has one row per qualifying commit, keyed by the commit hash, so the
    keys are unique as soon as the walk yields no commit twice. *)
Theorem final_table_sorted_and_keyed (E : Env) (S : SortValues)
    (commits : list Commit) (df : DataFrame) :
  analyze_repository E commits = Ok df →
  Sorted Z.le (commit_date <$> df_rows df) ∧
  commit_hash <$> df_rows df ≡ₚ hexsha <$> qualifying E commits ∧
  (NoDup (hexsha <$> commits) → NoDup (commit_hash <$> df_rows df)).
Proof.
  intros Hdf.
  destruct (analyze_repository_inv E _ _ Hdf) as (st & Hwalk & _ & Hrows).
  rewrite Hrows.
  assert (Hperm : commit_hash <$> sort_values (data st) ≡ₚ
                    hexsha <$> qualifying E commits).
  { rewrite sort_values_perm. by rewrite (walk_hashes E commits st). }
  split; [apply sort_values_sorted|]. split; [exact Hperm|].
  intros Hnd. rewrite Hperm. by apply qualifying_hashes_NoDup.
Qed.

Lemma final_table_sorted_and_keyed_witness :
  ∃ df,
    @analyze_repository Sample.env merge_sort_values Sample.history = Ok df ∧
    Sorted Z.le (commit_date <$> df_rows df) ∧
    NoDup (commit_hash <$> df_rows df) ∧
    commit_hash <$> df_rows df = ["c1"; "c2"; "c3"].
Proof.
  destruct walk_sample_history
    as (r3 & r2 & r1 & st & Hwalk & Hdata & [Hh3 Hd3] & [Hh2 Hd2] & [Hh1 Hd1]).
  assert (Hdf : @analyze_repository Sample.env merge_sort_values Sample.history =
                  Ok {| df_columns := record_keys; df_rows := [r1; r2; r3] |}).
  { rewrite (analyze_repository_walk Sample.env _ _ Hwalk).
    - rewrite Hdata, merge_sort_values_descending3; [reflexivity|lia|lia].
    - rewrite Hdata. intros Hnil. discriminate Hnil. }
  destruct (final_table_sorted_and_keyed Sample.env merge_sort_values _ _ Hdf)
    as (Hsorted & _ & Hkeys).
  eexists. split; [exact Hdf|]. split; [exact Hsorted|]. split.
  - apply Hkeys.
    apply (bool_decide_unpack (NoDup (hexsha <$> Sample.history))).
    vm_compute. exact I.
  - cbn. by rewrite Hh1, Hh2, Hh3.
Defined.

(** * Further properties of the pipeline *)

(** ** Commits outside the retention window *)

(** The walk is the walk of the commits that pass the date filter: a commit
    that is undated or older than the window changes neither the
    accumulators nor the record list, wherever it stands in the history. *)
Lemma walk_from_qualifying (E : Env) (st : WalkState) (commits : list Commit) :
  walk_from E st commits = walk_from E st (qualifying E commits).
Proof.
  revert st. induction commits as [|c rest IH]; intros st; [done|].
  destruct (qualifying_date E c) as [date|] eqn:Hq.
  - rewrite (qualifying_cons_Some E _ _ date) by done. cbn [walk_from].
    destruct (process_commit E st c) as [st1|e]; [|done].
    cbn [mbind result_bind]. apply IH.
  - rewrite qualifying_cons_None, walk_from_skip by done. apply IH.
Qed.

Theorem analyze_repository_ignores_skipped_commits (E : Env) (S : SortValues)
    (st : WalkState) (commits : list Commit) :
  walk_from E st commits = walk_from E st (qualifying E commits) ∧
  analyze_repository E commits = analyze_repository E (qualifying E commits).
Proof.
  split; [apply walk_from_qualifying|].
  unfold analyze_repository, walk. by rewrite walk_from_qualifying.
Qed.

(** ** What the sums of a record count *)

Section SumFacts.
Context (E : Env).

Lemma block_ret_bind {A B} (a : A) (k : A → Block B) (s : CommitSums) :
  (mret a ≫= k) s = k a s.
Proof. reflexivity. Qed.

(** The [try] block of one file, on the three sums assigned at lines
    168-170: they receive the file as soon as its content has been read,
    whatever the analysis does afterwards. *)
Lemma analyze_file_counts (c : Commit) (file : string) (stat : FileStat)
    (s : CommitSums) :
  let s' := try_except_continue (analyze_file E c file stat) s in
  let read := is_ok (blob_source c file) in
  churn_add s' = churn_add s + (if read then insertions stat else 0) ∧
  churn_del s' = churn_del s + (if read then deletions stat else 0) ∧
  file_count s' = file_count s + (if read then 1 else 0).
Proof.
  unfold try_except_continue, analyze_file.
  destruct (blob_source c file) as [source|e]; cbn [is_ok].
  - rewrite block_eval_ok, !block_assign. cbv zeta.
    destruct (measure_cyclomatic_complexity E source (splitext_ext E file))
      as [complexity|e].
    + rewrite block_eval_ok, block_assign.
      destruct (String.eqb (splitext_ext E file) ".py");
        repeat (rewrite block_assign || rewrite block_ret_bind); unfold assign; cbn; lia.
    + rewrite block_eval_raise. cbn. lia.
  - rewrite block_eval_raise. cbn. lia.
Qed.

Lemma foldl_file_step_counts (c : Commit) (l : list (string * FileStat))
    (ls : LoopState) :
  let counted :=
    filter (λ entry, accepted_extension entry.1 && is_ok (blob_source c entry.1)) l in
  let s' := sums (foldl (file_step E c) ls l) in
  churn_add s' = churn_add (sums ls) + py_sum ((insertions ∘ snd) <$> counted) ∧
  churn_del s' = churn_del (sums ls) + py_sum ((deletions ∘ snd) <$> counted) ∧
  file_count s' = file_count (sums ls) + Z.of_nat (length counted).
Proof.
  revert ls. induction l as [|entry l IH]; intros ls.
  - cbn. unfold py_sum. cbn. lia.
  - cbn zeta in *. cbn [foldl]. rewrite filter_cons.
    destruct (IH (file_step E c ls entry)) as (Hadd & Hdel & Hcount).
    rewrite Hadd, Hdel, Hcount. clear IH Hadd Hdel Hcount.
    cbn [file_step sums].
    destruct (accepted_extension entry.1) eqn:Hext; cbn [andb].
    + destruct (analyze_file_counts c entry.1 entry.2 (sums ls))
        as (Hadd & Hdel & Hcount).
      rewrite Hadd, Hdel, Hcount.
      destruct (is_ok (blob_source c entry.1)); cbn [Is_true].
      * rewrite decide_True by done. cbn [fmap list_fmap length].
        rewrite !py_sum_cons. cbn. lia.
      * rewrite decide_False by tauto. lia.
    + rewrite decide_False by tauto. lia.
Qed.
End SumFacts.

(** The record of a qualifying commit counts in [files_changed] the changed
    files with an accepted extension whose content could be read, and sums
    their insertions and deletions; the count lies between 0 and the number
    of changed files. *)
Theorem record_counts_readable_accepted_files (E : Env) (st st' : WalkState)
    (c : Commit) (r : CommitMetricRecord) :
  is_Some (qualifying_date E c) →
  process_commit E st c = Ok st' →
  last (data st') = Some r →
  files_changed r = Z.of_nat (length (counted_files c)) ∧
  lines_added r = py_sum ((insertions ∘ snd) <$> counted_files c) ∧
  lines_deleted r = py_sum ((deletions ∘ snd) <$> counted_files c) ∧
  0 <= files_changed r <= Z.of_nat (size (stats_files c)).
Proof.
  intros [date Hq] Hstep Hlast.
  destruct (process_commit_inv E _ _ _ Hstep)
    as [[Hnone _]|(date' & r0 & _ & _ & Hdata & Hr0 & _)]; [congruence|].
  rewrite Hdata, last_snoc in Hlast. apply (inj Some) in Hlast as <-.
  destruct (foldl_file_step_counts E c (map_to_list (stats_files c))
              {| sums := zero_sums; file_change_counter := ∅;
                 loop_ownership := file_ownership st |})
    as (Hadd & Hdel & Hcount).
  cbn zeta in Hadd, Hdel, Hcount. cbn [sums zero_sums churn_add churn_del file_count]
    in Hadd, Hdel, Hcount.
  assert (Hfiles : files_changed r0 = Z.of_nat (length (counted_files c))).
  { rewrite Hr0. cbn [make_record files_changed]. unfold file_loop, counted_files.
    rewrite Hcount. lia. }
  split; [exact Hfiles|]. split; [|split].
  - rewrite Hr0. cbn [make_record lines_added]. unfold file_loop, counted_files.
    rewrite Hadd. lia.
  - rewrite Hr0. cbn [make_record lines_deleted]. unfold file_loop, counted_files.
    rewrite Hdel. lia.
  - rewrite Hfiles. split; [lia|]. apply inj_le.
    rewrite <- length_map_to_list. apply length_filter.
Qed.

Lemma process_commit_returns (E : Env) (st : WalkState) (c : Commit) (date : Z) :
  qualifying_date E c = Some date →
  stats_files c ≠ ∅ ∨ file_ownership st ≠ ∅ →
  ∃ st' r, process_commit E st c = Ok st' ∧ last (data st') = Some r.
Proof.
  intros Hq Hseen. rewrite (process_commit_emit E _ _ date) by done.
  eexists _, _. split; [reflexivity|]. cbn [data]. apply last_snoc.
Qed.

Lemma record_counts_readable_accepted_files_witness :
  ∃ st' r,
    process_commit Sample.env initial_state Sample.c_deleted = Ok st' ∧
    last (data st') = Some r ∧
    files_changed r = 0 ∧ lines_added r = 0 ∧ lines_deleted r = 0.
Proof.
  destruct (process_commit_returns Sample.env initial_state Sample.c_deleted 2000)
    as (st' & r & Hstep & Hlast).
  { reflexivity. }
  { left. apply insert_non_empty. }
  destruct (record_counts_readable_accepted_files Sample.env initial_state st'
              Sample.c_deleted r (ex_intro _ 2000 eq_refl) Hstep Hlast)
    as (Hfiles & Hadd & Hdel & _).
  exists st', r. split; [exact Hstep|]. split; [exact Hlast|].
  split; [|split].
  - rewrite Hfiles. vm_compute. reflexivity.
  - rewrite Hadd. vm_compute. reflexivity.
  - rewrite Hdel. vm_compute. reflexivity.
Defined.

(** ** Maintainability is measured on [.py] files only *)

Lemma analyze_file_mi_unchanged (E : Env) (c : Commit) (file : string)
    (stat : FileStat) (s : CommitSums) :
  splitext_ext E file ≠ ".py" →
  mi_total (try_except_continue (analyze_file E c file stat) s) = mi_total s.
Proof.
  intros Hext. unfold try_except_continue, analyze_file.
  destruct (blob_source c file) as [source|e].
  - rewrite block_eval_ok, !block_assign. cbv zeta.
    destruct (measure_cyclomatic_complexity E source (splitext_ext E file))
      as [complexity|e].
    + rewrite block_eval_ok, block_assign.
      destruct (String.eqb_spec (splitext_ext E file) ".py") as [Heq|_]; [done|].
      by repeat (rewrite block_assign || rewrite block_ret_bind).
    + by rewrite block_eval_raise.
  - by rewrite block_eval_raise.
Qed.

Lemma foldl_file_step_mi_unchanged (E : Env) (c : Commit)
    (l : list (string * FileStat)) (ls : LoopState) :
  Forall (λ entry, splitext_ext E entry.1 ≠ ".py") l →
  mi_total (sums (foldl (file_step E c) ls l)) = mi_total (sums ls).
Proof.
  intros Hall. revert ls.
  induction Hall as [|entry l Hentry _ IH]; intros ls; [done|].
  cbn [foldl]. rewrite IH. cbn [file_step sums].
  destruct (accepted_extension entry.1); [|done].
  by apply analyze_file_mi_unchanged.
Qed.

(** A qualifying commit none of whose changed files has the extension
    [.py] (as [os.path.splitext] reports it) yields a record whose
    [total_maintainability_index] is 0: Java files contribute complexity,
    cohesion and coupling, never maintainability. *)
Theorem maintainability_needs_py_extension (E : Env) (st st' : WalkState)
    (c : Commit) (r : CommitMetricRecord) :
  is_Some (qualifying_date E c) →
  process_commit E st c = Ok st' →
  last (data st') = Some r →
  (∀ file, is_Some (stats_files c !! file) → splitext_ext E file ≠ ".py") →
  total_maintainability_index r = 0%R.
Proof.
  intros [date Hq] Hstep Hlast Hext.
  destruct (process_commit_inv E _ _ _ Hstep)
    as [[Hnone _]|(date' & r0 & _ & _ & Hdata & Hr0 & _)]; [congruence|].
  rewrite Hdata, last_snoc in Hlast. apply (inj Some) in Hlast as <-.
  rewrite Hr0. cbn [make_record total_maintainability_index]. unfold file_loop.
  rewrite foldl_file_step_mi_unchanged; [done|].
  apply Forall_forall. intros [file stat] Hin. cbn.
  apply Hext. apply elem_of_map_to_list in Hin. by exists stat.
Qed.

Lemma maintainability_needs_py_extension_witness :
  ∃ st' r,
    process_commit Sample.env initial_state Fixtures.c_java = Ok st' ∧
    last (data st') = Some r ∧
    total_maintainability_index r = 0%R.
Proof.
  destruct (process_commit_returns Sample.env initial_state Fixtures.c_java 2000)
    as (st' & r & Hstep & Hlast).
  { reflexivity. }
  { left. apply insert_non_empty. }
  exists st', r. split; [exact Hstep|]. split; [exact Hlast|].
  apply (maintainability_needs_py_extension Sample.env initial_state st'
           Fixtures.c_java r (ex_intro _ 2000 eq_refl) Hstep Hlast).
  intros file [stat Hfile]. cbn [Fixtures.c_java stats_files] in Hfile.
  apply lookup_singleton_Some in Hfile as [<- _].
  intros Heq. vm_compute in Heq. discriminate Heq.
Defined.

(** ** Ranges of the recorded values *)

Lemma log2R_nonneg (x : R) : (1 <= x)%R → (0 <= log2R x)%R.
Proof.
  intros Hx. unfold log2R.
  assert (0 < ln 2)%R by (rewrite <- ln_1; apply ln_increasing; lra).
  assert (0 <= ln x)%R.
  { destruct Hx as [Hx| <-]; [|rewrite ln_1; lra].
    left. rewrite <- ln_1. apply ln_increasing; lra. }
  apply Rmult_le_pos; [done|]. left. by apply Rinv_0_lt_compat.
Qed.

Lemma log2R_pos (x : R) : (1 < x)%R → (0 < log2R x)%R.
Proof.
  intros Hx. unfold log2R.
  assert (0 < ln 2)%R by (rewrite <- ln_1; apply ln_increasing; lra).
  assert (0 < ln x)%R by (rewrite <- ln_1; apply ln_increasing; lra).
  apply Rmult_lt_0_compat; [done|]. by apply Rinv_0_lt_compat.
Qed.

Lemma entropy_of_file_count_zero (n : nat) :
  (0 <= entropy_of_file_count n)%R ∧
  (entropy_of_file_count n = 0%R ↔ (n ≤ 1)%nat).
Proof.
  destruct n as [|[|n]].
  - cbn. split; [lra|]. split; [lia|done].
  - cbn [entropy_of_file_count]. change (INR 1) with 1%R. rewrite log2R_1.
    split; [lra|]. split; [lia|done].
  - cbn [entropy_of_file_count].
    assert (1 < INR (S (S n)))%R.
    { change 1%R with (INR 1). apply lt_INR. lia. }
    pose proof (log2R_pos _ H). split; [lra|]. split; [lra|lia].
Qed.

(** The entropy of a record is never negative, and it is 0 exactly when the
    commit changes at most one file. *)
Theorem code_entropy_zero_iff_at_most_one_file (E : Env) (st st' : WalkState)
    (c : Commit) (r : CommitMetricRecord) :
  is_Some (qualifying_date E c) →
  process_commit E st c = Ok st' →
  last (data st') = Some r →
  (0 <= code_entropy r)%R ∧
  (code_entropy r = 0%R ↔ (size (stats_files c) ≤ 1)%nat).
Proof.
  intros [date Hq] Hstep Hlast.
  destruct (process_commit_inv E _ _ _ Hstep)
    as [[Hnone _]|(date' & r0 & _ & _ & Hdata & Hr0 & _)]; [congruence|].
  rewrite Hdata, last_snoc in Hlast. apply (inj Some) in Hlast as <-.
  assert (Hentropy : code_entropy r0 = entropy_of_file_count (size (stats_files c)))
    by (by rewrite Hr0).
  rewrite Hentropy. apply entropy_of_file_count_zero.
Qed.

Lemma code_entropy_zero_iff_at_most_one_file_witness :
  ∃ st' r,
    process_commit Sample.env initial_state Sample.c_docs = Ok st' ∧
    last (data st') = Some r ∧
    (0 <= code_entropy r)%R ∧ code_entropy r ≠ 0%R.
Proof.
  destruct excluded_extensions_step as (st' & r & Hstep & Hlast).
  destruct (code_entropy_zero_iff_at_most_one_file Sample.env initial_state st'
              Sample.c_docs r (ex_intro _ 2500 eq_refl) Hstep Hlast)
    as (Hnonneg & Hzero).
  exists st', r. split; [exact Hstep|]. split; [exact Hlast|].
  split; [exact Hnonneg|].
  intros H0. apply Hzero in H0. vm_compute in H0.
  apply (Nat.nle_succ_diag_l 1). exact H0.
Defined.

(** ** The ownership mean *)

Lemma owners_nonempty_empty : owners_nonempty ∅.
Proof. intros file o H. by rewrite lookup_empty in H. Qed.

Lemma ownership_after_owners_nonempty (a : string) (files : list string)
    (d : gmap string (gset string)) :
  NoDup files → owners_nonempty d → owners_nonempty (ownership_after a files d).
Proof.
  intros Hnd Hd file o. rewrite ownership_after_lookup by done.
  destruct (decide (file ∈ files)).
  - intros [= <-] Hempty.
    assert (a ∈ owners d file ∪ {[a]}) as Hin
      by (apply elem_of_union_r, elem_of_singleton_2; reflexivity).
    rewrite Hempty in Hin. by apply not_elem_of_empty in Hin.
  - apply Hd.
Qed.

Lemma py_sum_at_least_length (xs : list Z) :
  Forall (λ x, 1 <= x) xs → Z.of_nat (length xs) <= py_sum xs.
Proof.
  induction 1 as [|x xs Hx _ IH]; [by rewrite py_sum_nil|].
  rewrite py_sum_cons. cbn [length]. lia.
Qed.

Lemma total_owners_at_least_size (d : gmap string (gset string)) :
  owners_nonempty d → Z.of_nat (size d) <= total_owners d.
Proof.
  intros Hd. unfold total_owners.
  rewrite <- (dict_values_length d), <- (length_fmap (λ o : gset string, Z.of_nat (size o))).
  apply py_sum_at_least_length, Forall_fmap, Forall_forall.
  intros o Ho. apply elem_of_dict_values in Ho as [file Hfile]. cbn.
  assert (size o ≠ 0)%nat; [|lia].
  intros Hsize. apply size_empty_inv in Hsize.
  apply (Hd file o Hfile). by apply leibniz_equiv.
Qed.

Lemma mean_at_least_one (t n : Z) : 0 < n → n <= t → (1 <= IZR t / IZR n)%R.
Proof.
  intros Hn Ht.
  assert (0 < IZR n)%R by (by apply IZR_lt).
  assert (IZR n <= IZR t)%R by (by apply IZR_le).
  apply Rmult_le_reg_r with (IZR n); [done|].
  unfold Rdiv. rewrite Rmult_assoc, Rinv_l by lra. lra.
Qed.

Section MeanFacts.
Context (E : Env).

(** The mean carried by the record of a qualifying commit is taken over the
    accumulator as the commit leaves it. *)
Lemma process_commit_mean (st st' : WalkState) (c : Commit)
    (r : CommitMetricRecord) :
  is_Some (qualifying_date E c) →
  process_commit E st c = Ok st' →
  last (data st') = Some r →
  file_ownership st' ≠ ∅ ∧
  file_ownership st' =
    ownership_after (author_email c) (map_to_list (stats_files c)).*1
      (file_ownership st) ∧
  unique_authors_per_file_avg r =
    (IZR (total_owners (file_ownership st')) /
     IZR (Z.of_nat (size (file_ownership st'))))%R.
Proof.
  intros [date Hq] Hstep Hlast.
  destruct (process_commit_inv E _ _ _ Hstep)
    as [[Hnone _]|(date' & r0 & _ & Hseen & _)]; [congruence|].
  rewrite (process_commit_emit E _ _ date) in Hstep by done.
  apply Ok_inj in Hstep. subst st'. cbn [data file_ownership] in *.
  rewrite last_snoc in Hlast. apply (inj Some) in Hlast as <-.
  cbn [make_record unique_authors_per_file_avg].
  rewrite file_loop_ownership. split; [|done].
  apply ownership_after_nonempty; [apply NoDup_fst_map_to_list|].
  destruct Hseen as [Hfiles|Hown]; [left|by right].
  by rewrite changed_files_nil.
Qed.

Lemma walk_from_mean_invariant (st st' : WalkState) (commits : list Commit) :
  walk_from E st commits = Ok st' →
  owners_nonempty (file_ownership st) →
  Forall (λ r, 1 <= unique_authors_per_file_avg r)%R (data st) →
  owners_nonempty (file_ownership st') ∧
  Forall (λ r, 1 <= unique_authors_per_file_avg r)%R (data st').
Proof.
  revert st. induction commits as [|c rest IH]; intros st Hwalk Hown Hall.
  - cbn in Hwalk. by apply Ok_inj in Hwalk as <-.
  - apply walk_from_cons_inv in Hwalk as (st1 & Hstep & Hrest).
    apply (IH st1 Hrest).
    + destruct (process_commit_inv E _ _ _ Hstep)
        as [[_ ->]|(date & r & _ & _ & _ & _ & Hown1 & _)]; [done|].
      rewrite Hown1.
      apply ownership_after_owners_nonempty; [apply NoDup_fst_map_to_list|done].
    + destruct (process_commit_inv E _ _ _ Hstep)
        as [[_ ->]|(date & r & Hq & _ & Hdata & _ & Hown1 & _)]; [done|].
      rewrite Hdata. apply Forall_app. split; [done|].
      apply Forall_singleton.
      destruct (process_commit_mean st st1 c r) as (Hne & _ & ->).
      * by exists date.
      * exact Hstep.
      * rewrite Hdata. apply last_snoc.
      * apply mean_at_least_one.
        -- assert (size (file_ownership st1) ≠ 0)%nat; [|lia].
           by apply map_size_non_empty_iff.
        -- apply total_owners_at_least_size. rewrite Hown1.
           apply ownership_after_owners_nonempty;
             [apply NoDup_fst_map_to_list|done].
Qed.
End MeanFacts.

(** Every record of a walk carries an ownership mean of at least 1: each
    file of the accumulator has at least one author. *)
Theorem ownership_mean_at_least_one (E : Env) (commits : list Commit)
    (st : WalkState) (r : CommitMetricRecord) :
  walk E commits = Ok st →
  r ∈ data st →
  (1 <= unique_authors_per_file_avg r)%R.
Proof.
  intros Hwalk Hr.
  destruct (walk_from_mean_invariant E _ _ _ Hwalk) as [_ Hall].
  - apply owners_nonempty_empty.
  - constructor.
  - by apply (proj1 (Forall_forall _ _) Hall).
Qed.

Lemma ownership_mean_at_least_one_witness :
  ∃ st r,
    walk Sample.env Sample.scenario = Ok st ∧ r ∈ data st ∧
    (1 <= unique_authors_per_file_avg r)%R.
Proof.
  destruct walk_sample_scenario as (r1 & r2 & r3 & st & Hwalk & Hdata & _).
  assert (Hin : r2 ∈ data st).
  { rewrite Hdata. apply list_elem_of_further, list_elem_of_here. }
  exists st, r2. split; [exact Hwalk|]. split; [exact Hin|].
  exact (ownership_mean_at_least_one Sample.env Sample.scenario st r2 Hwalk Hin).
Defined.

(** ** What the ownership accumulator holds *)

Lemma walk_from_ownership_exact (E : Env) (st st' : WalkState)
    (commits : list Commit) (file a : string) :
  walk_from E st commits = Ok st' →
  a ∈ owners (file_ownership st') file ↔
  a ∈ owners (file_ownership st) file ∨
  ∃ c, c ∈ commits ∧ is_Some (qualifying_date E c) ∧ author_email c = a ∧
       is_Some (stats_files c !! file).
Proof.
  revert st. induction commits as [|c0 rest IH]; intros st Hwalk.
  - cbn in Hwalk. apply Ok_inj in Hwalk as <-. split; [by left|].
    intros [H|(c & Hc & _)]; [done|]. by apply elem_of_nil in Hc.
  - apply walk_from_cons_inv in Hwalk as (st1 & Hstep & Hrest).
    rewrite (IH st1 Hrest). clear IH Hrest.
    destruct (process_commit_inv E _ _ _ Hstep)
      as [[Hnone ->]|(date & r & Hq & _ & _ & _ & Hown & _)].
    + split.
      * intros [H|(c & Hc & Hrest)]; [by left|].
        right. exists c. split; [by apply list_elem_of_further|done].
      * intros [H|(c & Hc & Hq & Hrest)]; [by left|].
        apply elem_of_cons in Hc as [->|Hc].
        -- rewrite Hnone in Hq. by destruct Hq.
        -- right. by exists c.
    + rewrite Hown, ownership_after_owners by apply NoDup_fst_map_to_list.
      split.
      * intros [H|(c & Hc & Hrest)].
        -- destruct (decide (file ∈ _)) as [Hin|_]; [|by left].
           apply elem_of_union in H as [H|H]; [by left|].
           apply elem_of_singleton in H as ->. right. exists c0.
           split; [apply list_elem_of_here|]. split; [by exists date|].
           split; [done|]. by apply elem_of_changed_files.
        -- right. exists c. split; [by apply list_elem_of_further|done].
      * intros [H|(c & Hc & Hqc & Ha & Hfile)].
        -- left. destruct (decide (file ∈ _)); [by apply elem_of_union_l|done].
        -- apply elem_of_cons in Hc as [->|Hc].
           ++ left. rewrite decide_True by (by apply elem_of_changed_files).
              apply elem_of_union_r, elem_of_singleton_2. done.
           ++ right. by exists c.
Qed.

Lemma walk_ownership_exact (E : Env)
    (commits : list Commit) (st : WalkState) (file a : string) :
  walk E commits = Ok st →
  a ∈ owners (file_ownership st) file ↔
  ∃ c, c ∈ commits ∧ is_Some (qualifying_date E c) ∧ author_email c = a ∧
       is_Some (stats_files c !! file).
Proof.
  intros Hwalk. rewrite (walk_from_ownership_exact E _ _ _ file a Hwalk).
  split; [|by right]. intros [H|H]; [|done].
  unfold owners in H. cbn in H. rewrite lookup_empty in H.
  by apply not_elem_of_empty in H.
Qed.

(** After a walk, the authors recorded for a file are exactly the authors of
    the qualifying commits that changed it: nobody is recorded for a file
    they did not change, and commits outside the window record nobody. *)
Theorem ownership_is_exactly_the_changing_authors (E : Env)
    (commits : list Commit) (st : WalkState) (file a : string) :
  walk E commits = Ok st →
  a ∈ owners (file_ownership st) file ↔
  ∃ c, c ∈ commits ∧ is_Some (qualifying_date E c) ∧ author_email c = a ∧
       is_Some (stats_files c !! file).
Proof.
  intros Hwalk. rewrite (walk_from_ownership_exact E _ _ _ file a Hwalk).
  split; [|by right]. intros [Hinit|Hcommit]; [|exact Hcommit].
  unfold owners in Hinit. cbn in Hinit. rewrite lookup_empty in Hinit.
  by apply not_elem_of_empty in Hinit.
Qed.

Lemma ownership_is_exactly_the_changing_authors_witness :
  ∃ st,
    walk Sample.env Fixtures.shared = Ok st ∧
    "bob" ∈ owners (file_ownership st) "x.py" ∧
    "bob" ∉ owners (file_ownership st) "y.py".
Proof.
  destruct (walk_from_total Sample.env initial_state Fixtures.shared) as [st Hwalk].
  { repeat constructor; apply insert_non_empty. }
  exists st. split; [exact Hwalk|]. split.
  - apply (ownership_is_exactly_the_changing_authors Sample.env _ st "x.py" "bob" Hwalk).
    exists (Sample.c_code "h2" 2500 "bob" "x.py").
    split; [apply list_elem_of_further, list_elem_of_here|].
    split; [by exists 2500|]. split; [reflexivity|].
    exists (Sample.stat 5 1). reflexivity.
  - intros Hin.
    apply (ownership_is_exactly_the_changing_authors Sample.env _ st "y.py" "bob" Hwalk)
      in Hin as (c & Hc & _ & Ha & [stat Hfile]).
    clear Hwalk. unfold Fixtures.shared in Hc.
    repeat (apply elem_of_cons in Hc as [->|Hc]).
    + discriminate Ha.
    + vm_compute in Hfile. discriminate Hfile.
    + discriminate Ha.
    + by apply elem_of_nil in Hc.
Defined.

(** ** When a table is returned, and which one *)

(** When the first commit that passes the date filter changes at least one
    file, [analyze_repository] returns a table with the thirteen columns and
    one row per qualifying commit, commits without files included. *)
Theorem analyze_repository_returns_a_row_per_commit (E : Env) (S : SortValues)
    (commits rest : list Commit) (c : Commit) :
  qualifying E commits = c :: rest →
  stats_files c ≠ ∅ →
  ∃ df,
    analyze_repository E commits = Ok df ∧
    df_columns df = record_keys ∧
    length (df_rows df) = length (qualifying E commits).
Proof.
  intros Hq Hfiles.
  destruct (walk_first_commit_with_files E _ _ _ Hq Hfiles) as [st Hwalk].
  destruct (walk_from_records E _ _ _ Hwalk) as (rs & Hdata & Hall & _).
  cbn in Hdata. apply Forall2_length in Hall.
  assert (Hne : data st ≠ []).
  { rewrite Hdata. intros ->. rewrite Hq in Hall. discriminate Hall. }
  eexists. split; [by apply analyze_repository_walk|].
  split; [reflexivity|]. cbn [df_rows].
  by rewrite sort_values_perm, Hdata, <- Hall.
Qed.

Lemma analyze_repository_returns_a_row_per_commit_witness :
  ∃ df,
    @analyze_repository Sample.env merge_sort_values
      [Sample.c_stale; Sample.c_docs; Sample.c_empty] = Ok df ∧
    df_columns df = record_keys ∧ length (df_rows df) = 2%nat.
Proof.
  apply (analyze_repository_returns_a_row_per_commit Sample.env merge_sort_values
           [Sample.c_stale; Sample.c_docs; Sample.c_empty]
           [Sample.c_empty] Sample.c_docs).
  - reflexivity.
  - apply insert_non_empty.
Defined.

Lemma date_le_transitive : Transitive date_le.
Proof. intros r1 r2 r3. unfold date_le. lia. Qed.

Lemma Sorted_date_le (rows : list CommitMetricRecord) :
  Sorted Z.le (commit_date <$> rows) → Sorted date_le rows.
Proof.
  induction rows as [|r rows IH]; intros H; [constructor|].
  cbn in H. apply Sorted_inv in H as [Hsorted Hhd].
  constructor; [by apply IH|].
  destruct rows as [|r' rows]; constructor.
  cbn in Hhd. by apply HdRel_inv in Hhd.
Qed.

Lemma NoDup_fmap_inj {A B} (f : A → B) (l : list A) (x y : A) :
  NoDup (f <$> l) → x ∈ l → y ∈ l → f x = f y → x = y.
Proof.
  induction l as [|z l IH]; intros Hnd Hx Hy Hxy.
  - by apply elem_of_nil in Hx.
  - cbn in Hnd. apply NoDup_cons in Hnd as [Hz Hnd].
    apply elem_of_cons in Hx as [->|Hx]; apply elem_of_cons in Hy as [->|Hy].
    + done.
    + exfalso. apply Hz. rewrite Hxy. by apply list_elem_of_fmap_2.
    + exfalso. apply Hz. rewrite <- Hxy. by apply list_elem_of_fmap_2.
    + by apply IH.
Qed.

(** When no two rows share a commit date, the returned table does not depend
    on the sorting algorithm behind [sort_values]: any two sorts that order
    by date return the same table. *)
Theorem table_is_unique_when_dates_differ (E : Env) (S1 S2 : SortValues)
    (commits : list Commit) (df1 df2 : DataFrame) :
  @analyze_repository E S1 commits = Ok df1 →
  @analyze_repository E S2 commits = Ok df2 →
  NoDup (commit_date <$> df_rows df1) →
  df1 = df2.
Proof.
  intros Hdf1 Hdf2 Hnd.
  destruct (@analyze_repository_inv E S1 _ _ Hdf1) as (st & Hwalk & Hne & Hrows1).
  rewrite (@analyze_repository_walk E S1 _ _ Hwalk Hne) in Hdf1.
  rewrite (@analyze_repository_walk E S2 _ _ Hwalk Hne) in Hdf2.
  apply Ok_inj in Hdf1. apply Ok_inj in Hdf2. subst df1 df2.
  cbn [df_rows] in Hnd. f_equal.
  apply (@Sorted_unique_strong _ date_le date_le_transitive).
  - intros r1 r2 Hr1 Hr2 H12 H21.
    apply (NoDup_fmap_inj commit_date (@sort_values S1 (data st))); [done|done| |].
    + by rewrite (@sort_values_perm S1), <- (@sort_values_perm S2).
    + unfold date_le in *. lia.
  - apply Sorted_date_le, sort_values_sorted.
  - apply Sorted_date_le, sort_values_sorted.
  - by rewrite !sort_values_perm.
Qed.

Lemma table_is_unique_when_dates_differ_witness :
  ∃ df1 df2,
    @analyze_repository Sample.env merge_sort_values Sample.history = Ok df1 ∧
    @analyze_repository Sample.env reversed_merge_sort_values Sample.history = Ok df2 ∧
    df1 = df2.
Proof.
  destruct walk_sample_history
    as (r3 & r2 & r1 & st & Hwalk & Hdata & [_ Hd3] & [_ Hd2] & [_ Hd1]).
  assert (Hne : data st ≠ []).
  { rewrite Hdata. intros Hnil. discriminate Hnil. }
  pose proof (@analyze_repository_walk Sample.env merge_sort_values _ _ Hwalk Hne)
    as Hdf1.
  pose proof (@analyze_repository_walk Sample.env reversed_merge_sort_values _ _
                Hwalk Hne) as Hdf2.
  eexists _, _. split; [exact Hdf1|]. split; [exact Hdf2|].
  apply (table_is_unique_when_dates_differ Sample.env merge_sort_values
           reversed_merge_sort_values Sample.history _ _ Hdf1 Hdf2).
  cbn [df_rows]. rewrite Hdata, merge_sort_values_descending3 by lia.
  cbn [fmap list_fmap]. rewrite Hd1, Hd2, Hd3.
  apply (bool_decide_unpack (NoDup [2000; 2500; 3000])). vm_compute. exact I.
Defined.

(** ** The accumulators at the end of the walk *)

Lemma counter_incr_positive (d : gmap string Z) (a : string) :
  counts_positive d → counts_positive (counter_incr d a).
Proof.
  intros Hd b v. unfold counter_incr. rewrite lookup_insert.
  destruct (decide (a = b)) as [->|_]; [|apply Hd].
  intros [= <-]. unfold counter_get.
  destruct (d !! b) as [w|] eqn:Hb; cbn; [|lia].
  specialize (Hd b w Hb). lia.
Qed.

Lemma walk_from_counts_positive (E : Env) (st st' : WalkState)
    (commits : list Commit) :
  walk_from E st commits = Ok st' →
  counts_positive (commit_counts_by_author st) →
  counts_positive (commit_counts_by_author st').
Proof.
  revert st. induction commits as [|c rest IH]; intros st Hwalk Hpos.
  - cbn in Hwalk. by apply Ok_inj in Hwalk as <-.
  - apply walk_from_cons_inv in Hwalk as (st1 & Hstep & Hrest).
    apply (IH st1 Hrest).
    destruct (process_commit_inv E _ _ _ Hstep)
      as [[_ ->]|(date & r & _ & _ & _ & _ & _ & Hcounts)]; [done|].
    rewrite Hcounts. by apply counter_incr_positive.
Qed.

Lemma count_author_Permutation (a : string) (l1 l2 : list Commit) :
  l1 ≡ₚ l2 → count_author a l1 = count_author a l2.
Proof. intros H. unfold count_author. by rewrite H. Qed.

(** The final accumulators do not depend on the order of the walk: two
    walks over the same commits in different orders end with the same
    ownership sets and the same author counters (the records they emit on
    the way do depend on the order). *)
Theorem final_accumulators_ignore_walk_order (E : Env)
    (commits commits' : list Commit) (st st' : WalkState) :
  commits ≡ₚ commits' →
  walk E commits = Ok st →
  walk E commits' = Ok st' →
  file_ownership st = file_ownership st' ∧
  commit_counts_by_author st = commit_counts_by_author st'.
Proof.
  intros Hperm Hwalk Hwalk'. split.
  - assert (Hsame : ∀ file, owners (file_ownership st) file =
                            owners (file_ownership st') file).
    { intros file. apply set_eq. intros a.
      rewrite (walk_ownership_exact E _ _ file a Hwalk).
      rewrite (walk_ownership_exact E _ _ file a Hwalk').
      by setoid_rewrite Hperm. }
    destruct (walk_from_mean_invariant E _ _ _ Hwalk) as [Hne _];
      [apply owners_nonempty_empty|constructor|].
    destruct (walk_from_mean_invariant E _ _ _ Hwalk') as [Hne' _];
      [apply owners_nonempty_empty|constructor|].
    apply map_eq. intros file. specialize (Hsame file). unfold owners in Hsame.
    destruct (file_ownership st !! file) as [o|] eqn:Ho;
      destruct (file_ownership st' !! file) as [o'|] eqn:Ho'; cbn in Hsame.
    + by rewrite Hsame.
    + by destruct (Hne file o Ho).
    + by destruct (Hne' file o' Ho').
    + done.
  - assert (Hsame : ∀ a, counter_get (commit_counts_by_author st) a =
                         counter_get (commit_counts_by_author st') a).
    { intros a.
      destruct (walk_from_records E _ _ _ Hwalk) as (_ & _ & _ & -> & _).
      destruct (walk_from_records E _ _ _ Hwalk') as (_ & _ & _ & -> & _).
      f_equal. f_equal. apply count_author_Permutation.
      unfold qualifying. by rewrite Hperm. }
    pose proof (walk_from_counts_positive E _ _ _ Hwalk) as Hpos.
    pose proof (walk_from_counts_positive E _ _ _ Hwalk') as Hpos'.
    assert (Hinit : counts_positive (commit_counts_by_author initial_state)).
    { intros a v H. cbn in H. rewrite lookup_empty in H. discriminate H. }
    specialize (Hpos Hinit). specialize (Hpos' Hinit).
    apply map_eq. intros a. specialize (Hsame a). unfold counter_get in Hsame.
    destruct (commit_counts_by_author st !! a) as [v|] eqn:Hv;
      destruct (commit_counts_by_author st' !! a) as [v'|] eqn:Hv'; cbn in Hsame.
    + by rewrite Hsame.
    + specialize (Hpos a v Hv). lia.
    + specialize (Hpos' a v' Hv'). lia.
    + done.
Qed.

Lemma final_accumulators_ignore_walk_order_witness :
  ∃ st st',
    walk Sample.env Fixtures.shared = Ok st ∧
    walk Sample.env (reverse Fixtures.shared) = Ok st' ∧
    file_ownership st = file_ownership st' ∧
    commit_counts_by_author st = commit_counts_by_author st'.
Proof.
  assert (Hfiles : Forall (λ c, stats_files c ≠ ∅) Fixtures.shared).
  { repeat constructor; apply insert_non_empty. }
  destruct (walk_from_total Sample.env initial_state Fixtures.shared Hfiles)
    as [st Hwalk].
  destruct (walk_from_total Sample.env initial_state (reverse Fixtures.shared))
    as [st' Hwalk'].
  { by apply Forall_reverse. }
  exists st, st'. split; [exact Hwalk|]. split; [exact Hwalk'|].
  apply (final_accumulators_ignore_walk_order Sample.env Fixtures.shared
           (reverse Fixtures.shared) st st'); [|exact Hwalk|exact Hwalk'].
  symmetry. apply reverse_Permutation.
Defined.

(** ** Scaling the counts *)

Lemma py_sum_scale (k : Z) (xs : list Z) :
  py_sum (Z.mul k <$> xs) = k * py_sum xs.
Proof.
  induction xs as [|x xs IH]; [rewrite py_sum_nil; cbn; lia|].
  rewrite fmap_cons, !py_sum_cons, IH. lia.
Qed.

Lemma entropy_term_scale (k total count : Z) :
  k ≠ 0 → total ≠ 0 →
  entropy_term (k * total) (k * count) = entropy_term total count.
Proof.
  intros Hk Ht. unfold entropy_term.
  rewrite !py_truediv_ok by lia.
  replace (IZR (k * count) / IZR (k * total))%R with (IZR count / IZR total)%R;
    [done|].
  rewrite !mult_IZR. field. split; by apply not_0_IZR.
Qed.

Lemma py_sum_gen_scale (k total : Z) (xs : list Z) (acc : R) :
  k ≠ 0 → total ≠ 0 →
  py_sum_gen (entropy_term (k * total)) acc (Z.mul k <$> xs) =
  py_sum_gen (entropy_term total) acc xs.
Proof.
  intros Hk Ht. revert acc. induction xs as [|x xs IH]; intros acc; [done|].
  rewrite fmap_cons. cbn [py_sum_gen]. rewrite entropy_term_scale by done.
  destruct (entropy_term total x) as [v|e]; [|done].
  cbn [mbind result_bind]. apply IH.
Qed.

Lemma dict_values_fmap {A B} (f : A → B) (d : gmap string A) :
  dict_values (f <$> d) = f <$> dict_values d.
Proof.
  unfold dict_values. rewrite map_to_list_fmap, <- !list_fmap_compose.
  apply list_fmap_ext. by intros i [key value].
Qed.

(** Only the relative magnitudes of the counts matter: multiplying every
    count by the same non-zero integer changes neither the value returned
    nor the exception raised. *)
Theorem calculate_entropy_scale_invariant (k : Z) (change_counts : gmap string Z) :
  k ≠ 0 →
  calculate_entropy (Z.mul k <$> change_counts) = calculate_entropy change_counts.
Proof.
  intros Hk. unfold calculate_entropy. cbv zeta.
  rewrite dict_values_fmap, py_sum_scale.
  set (values := dict_values change_counts).
  destruct (Z.eqb_spec (py_sum values) 0) as [Hzero|Hne].
  - rewrite Hzero, Z.mul_0_r. reflexivity.
  - rewrite (proj2 (Z.eqb_neq (k * py_sum values) 0)) by lia.
    by rewrite py_sum_gen_scale.
Qed.

Lemma calculate_entropy_scale_invariant_witness :
  calculate_entropy (Z.mul 5 <$> {[ "a" := 1; "b" := 3 ]}) =
  calculate_entropy {[ "a" := 1; "b" := 3 ]}.
Proof. apply calculate_entropy_scale_invariant. discriminate. Defined.

(** * The keyword scanner *)

Section KeywordFilterFacts.
Import KeywordFilter.
Context (E : KeywordFilter.Env).

Lemma foldl_check_keyword (repo_name text : string) (keywords : list string)
    (st : ScanState) :
  results (foldl (check_keyword E repo_name text) st keywords) =
    results st ++ hits_of_line E repo_name keywords (line_count st) text ∧
  line_count (foldl (check_keyword E repo_name text) st keywords) = line_count st.
Proof.
  revert st. induction keywords as [|kw keywords IH]; intros st.
  - cbn. by rewrite app_nil_r.
  - cbn [foldl]. destruct (IH (check_keyword E repo_name text st kw)) as [-> ->].
    unfold hits_of_line, check_keyword. rewrite filter_cons.
    destruct (str_contains (lower E kw) (lower E text)); cbn [Is_true].
    + rewrite decide_True by done. cbn. by rewrite <- app_assoc.
    + by rewrite decide_False by tauto.
Qed.

Lemma foldl_scan_line (repo_name : string) (keywords texts : list string)
    (st : ScanState) :
  results (foldl (scan_line E repo_name keywords) st texts) =
    results st ++
    mjoin (imap (λ i text, hits_of_line E repo_name keywords
                              (line_count st + 1 + Z.of_nat i) text) texts) ∧
  line_count (foldl (scan_line E repo_name keywords) st texts) =
    line_count st + Z.of_nat (length texts).
Proof.
  revert st. induction texts as [|text texts IH]; intros st.
  - cbn. rewrite app_nil_r. split; [done|lia].
  - cbn [foldl]. destruct (IH (scan_line E repo_name keywords st text)) as [-> ->].
    unfold scan_line.
    destruct (foldl_check_keyword repo_name text keywords
                {| results := results st; line_count := line_count st + 1 |})
      as [-> ->].
    cbn [results line_count]. rewrite imap_cons. cbn [mjoin list_join length].
    rewrite <- app_assoc, Z.add_0_r. split; [|lia].
    do 3 f_equal. apply imap_ext. intros i text' _. cbn. f_equal. lia.
Qed.

(** The state at [return] for a [.json] path that can be opened. *)
Lemma search_state_opened (file_path : string) (keywords : list string)
    (f : TextFile) :
  endswith file_path ".json" = true →
  open_text E file_path = Ok f →
  results (search_state E file_path keywords) =
    mjoin (imap (λ i text,
                    hits_of_line E (replace E (basename E file_path) ".json" "")
                      keywords (Z.of_nat i + 1) text) (file_lines f)) ∧
  line_count (search_state E file_path keywords) = Z.of_nat (length (file_lines f)).
Proof.
  intros Hjson Hopen. unfold search_state, try_scan, scan_file.
  rewrite Hjson, Hopen. cbn [snd].
  destruct (foldl_scan_line (replace E (basename E file_path) ".json" "") keywords
              (file_lines f) {| results := []; line_count := 0 |}) as [-> ->].
  cbn [results line_count app]. split; [|lia].
  f_equal. apply imap_ext. intros i text _. cbn. f_equal. lia.
Qed.

Lemma elem_of_hits_of_line (repo_name : string) (keywords : list string) (n : Z)
    (text : string) (h : Hit) :
  h ∈ hits_of_line E repo_name keywords n text ↔
  keyword h ∈ keywords ∧
  str_contains (lower E (keyword h)) (lower E text) = true ∧
  h = {| keyword := keyword h; repository := repo_name; line := n;
         line_snippet := slice_to 120 (strip E text) |}.
Proof.
  unfold hits_of_line. rewrite list_elem_of_fmap. split.
  - intros (kw & -> & Hin). apply list_elem_of_filter in Hin as [Hmatch Hin].
    cbn. split; [done|]. split; [by apply Is_true_true|done].
  - intros (Hin & Hmatch & Hh). exists (keyword h). split; [done|].
    apply list_elem_of_filter. split; [by apply Is_true_true|done].
Qed.

Lemma elem_of_search (file_path : string) (keywords : list string) (f : TextFile)
    (h : Hit) :
  endswith file_path ".json" = true →
  open_text E file_path = Ok f →
  h ∈ search_keywords_in_json_text E file_path keywords ↔
  ∃ i text,
    file_lines f !! i = Some text ∧
    keyword h ∈ keywords ∧
    str_contains (lower E (keyword h)) (lower E text) = true ∧
    h = {| keyword := keyword h;
           repository := replace E (basename E file_path) ".json" "";
           line := Z.of_nat i + 1;
           line_snippet := slice_to 120 (strip E text) |}.
Proof.
  intros Hjson Hopen. unfold search_keywords_in_json_text.
  destruct (search_state_opened file_path keywords f Hjson Hopen) as [-> _].
  rewrite list_elem_of_join. split.
  - intros (hits & Hh & Hhits).
    apply elem_of_lookup_imap in Hhits as (i & text & -> & Htext).
    apply elem_of_hits_of_line in Hh. exists i, text. tauto.
  - intros (i & text & Htext & Hrest).
    exists (hits_of_line E (replace E (basename E file_path) ".json" "") keywords
              (Z.of_nat i + 1) text).
    split; [by apply elem_of_hits_of_line|].
    exact (elem_of_lookup_imap_2
             (λ i text, hits_of_line E (replace E (basename E file_path) ".json" "")
                          keywords (Z.of_nat i + 1) text)
             (file_lines f) text i Htext).
Qed.
End KeywordFilterFacts.

Lemma slice_to_length (n : nat) (s : string) : (String.length (KeywordFilter.slice_to n s) ≤ n)%nat.
Proof.
  unfold KeywordFilter.slice_to. revert s.
  induction n as [|n IH]; intros [|c s]; cbn; try lia.
  specialize (IH s). lia.
Qed.

Lemma slice_to_short (n : nat) (s : string) :
  (String.length s ≤ n)%nat → KeywordFilter.slice_to n s = s.
Proof.
  unfold KeywordFilter.slice_to. revert s.
  induction n as [|n IH]; intros [|c s] Hlen; cbn in *; try done; try lia.
  f_equal. apply IH. lia.
Qed.

Section KeywordFilterClaims.
Import KeywordFilter.
Context (E : KeywordFilter.Env).

(** A keyword is reported for a line number exactly when the path ends in
    [.json], the file can be opened, the keyword is one of those asked for,
    the line was read, and the lower-cased keyword occurs in the lower-cased
    line.  Nothing is reported for a path without the suffix or for a file
    that cannot be opened, and an error while reading loses no line read
    before it. *)
Theorem search_reports_exactly_the_matching_lines (file_path : string)
    (keywords : list string) (kw : string) (n : Z) :
  (∃ h, h ∈ search_keywords_in_json_text E file_path keywords ∧
        keyword h = kw ∧ line h = n) ↔
  endswith file_path ".json" = true ∧
  ∃ f, open_text E file_path = Ok f ∧
       kw ∈ keywords ∧
       ∃ i text, file_lines f !! i = Some text ∧ n = Z.of_nat i + 1 ∧
                 str_contains (lower E kw) (lower E text) = true.
Proof.
  destruct (endswith file_path ".json") eqn:Hjson; cycle 1.
  { unfold search_keywords_in_json_text, search_state. rewrite Hjson. cbn.
    split; [intros (h & Hh & _); by apply elem_of_nil in Hh|by intros [? _]]. }
  destruct (open_text E file_path) as [f|e] eqn:Hopen; cycle 1.
  { unfold search_keywords_in_json_text, search_state, try_scan.
    rewrite Hjson, Hopen. cbn.
    split; [intros (h & Hh & _); by apply elem_of_nil in Hh|].
    by intros (_ & f & ? & _). }
  split.
  - intros (h & Hh & <- & <-).
    apply (elem_of_search E _ _ f) in Hh as (i & text & Htext & Hin & Hmatch & ->);
      [|done..].
    split; [done|]. exists f. split; [done|]. split; [done|]. by exists i, text.
  - intros (_ & f' & [= <-] & Hin & i & text & Htext & -> & Hmatch).
    eexists {| keyword := kw; line := Z.of_nat i + 1 |}.
    split; [|done]. apply (elem_of_search E _ _ f); [done..|].
    exists i, text. cbn. done.
Qed.

(** Every reported hit carries the repository name derived from the path,
    the 1-based number of a line that was read, and as snippet the first 120
    characters of that line stripped. *)
Theorem search_hits_describe_their_line (file_path : string)
    (keywords : list string) (f : TextFile) (h : Hit) :
  endswith file_path ".json" = true →
  open_text E file_path = Ok f →
  h ∈ search_keywords_in_json_text E file_path keywords →
  repository h = replace E (basename E file_path) ".json" "" ∧
  1 <= line h <= Z.of_nat (length (file_lines f)) ∧
  (String.length (line_snippet h) ≤ 120)%nat ∧
  ∃ text,
    file_lines f !! Z.to_nat (line h - 1) = Some text ∧
    line_snippet h = slice_to 120 (strip E text) ∧
    ((String.length (strip E text) ≤ 120)%nat → line_snippet h = strip E text).
Proof.
  intros Hjson Hopen Hh.
  apply (elem_of_search E _ _ f) in Hh as (i & text & Htext & _ & _ & ->);
    [|done..].
  cbn. split; [done|]. split.
  - apply lookup_lt_Some in Htext. lia.
  - split; [apply slice_to_length|]. exists text.
    replace (Z.to_nat (Z.of_nat i + 1 - 1)) with i by lia.
    split; [done|]. split; [done|]. apply slice_to_short.
Qed.
End KeywordFilterClaims.

Section KeywordFilterOrder.
Import KeywordFilter.
Context (E : KeywordFilter.Env).

Lemma hits_of_line_lines (repo_name : string) (keywords : list string) (n : Z)
    (text : string) :
  Forall (λ m, m = n) (line <$> hits_of_line E repo_name keywords n text) ∧
  (length (hits_of_line E repo_name keywords n text) ≤ length keywords)%nat.
Proof.
  unfold hits_of_line. split.
  - rewrite <- list_fmap_compose. by apply Forall_fmap, Forall_true.
  - rewrite length_fmap. apply length_filter.
Qed.

Lemma constant_StronglySorted (n : Z) (ms : list Z) :
  Forall (λ m, m = n) ms → StronglySorted Z.le ms.
Proof.
  induction 1 as [|m ms -> Hall IH]; constructor; [done|].
  eapply Forall_impl; [exact Hall|]. cbn. lia.
Qed.

Lemma scan_line_invariant (repo_name : string) (keywords : list string)
    (st : ScanState) (text : string) :
  scan_invariant keywords st →
  scan_invariant keywords (scan_line E repo_name keywords st text).
Proof.
  intros (Hsorted & Hrange & Hcount & Hlen). unfold scan_invariant, scan_line.
  destruct (foldl_check_keyword E repo_name text keywords
              {| results := results st; line_count := line_count st + 1 |})
    as [-> ->].
  cbn [results line_count].
  destruct (hits_of_line_lines repo_name keywords (line_count st + 1) text)
    as [Hlines Hhits].
  rewrite fmap_app, length_app. split; [|split; [|split]].
  - apply StronglySorted_app_2; [|done|].
    + intros n m Hn Hm.
      apply (proj1 (Forall_forall _ _) Hrange) in Hn.
      apply (proj1 (Forall_forall _ _) Hlines) in Hm. lia.
    + by eapply constant_StronglySorted.
  - apply Forall_app. split.
    + eapply Forall_impl; [exact Hrange|]. cbn. lia.
    + eapply Forall_impl; [exact Hlines|]. cbn. lia.
  - lia.
  - nia.
Qed.

Lemma foldl_scan_line_invariant (repo_name : string) (keywords texts : list string)
    (st : ScanState) :
  scan_invariant keywords st →
  scan_invariant keywords (foldl (scan_line E repo_name keywords) st texts).
Proof.
  revert st. induction texts as [|text texts IH]; intros st Hst; [done|].
  cbn [foldl]. by apply IH, scan_line_invariant.
Qed.

(** Whatever the path and the file, the hits are returned in file order,
    their line numbers lie between 1 and the number of lines read, and there
    are at most as many hits as lines read times keywords: a keyword is
    reported once per line even if it occurs several times in it. *)
Theorem search_hits_are_in_file_order (file_path : string) (keywords : list string) :
  let st := search_state E file_path keywords in
  Sorted Z.le (line <$> search_keywords_in_json_text E file_path keywords) ∧
  Forall (λ h, 1 <= line h <= line_count st)
         (search_keywords_in_json_text E file_path keywords) ∧
  Z.of_nat (length (search_keywords_in_json_text E file_path keywords)) <=
    line_count st * Z.of_nat (length keywords).
Proof.
  cbn zeta. unfold search_keywords_in_json_text.
  assert (Hinit : scan_invariant keywords {| results := []; line_count := 0 |}).
  { unfold scan_invariant. cbn. repeat split; try lia; constructor. }
  assert (Hinv : scan_invariant keywords (search_state E file_path keywords)).
  { unfold search_state, try_scan, scan_file.
    destruct (endswith file_path ".json"); [|done].
    destruct (open_text E file_path) as [f|e]; [|done].
    cbn [snd]. by apply foldl_scan_line_invariant. }
  destruct Hinv as (Hsorted & Hrange & _ & Hlen).
  split; [by apply StronglySorted_Sorted|]. split; [|done].
  by apply Forall_fmap in Hrange.
Qed.

Lemma join_imap_fmap_ext {A B C} (g : B → C) (F1 F2 : nat → A → list B)
    (l : list A) :
  (∀ i x, g <$> F1 i x = g <$> F2 i x) →
  g <$> mjoin (imap F1 l) = g <$> mjoin (imap F2 l).
Proof.
  revert F1 F2. induction l as [|x l IH]; intros F1 F2 Hext; [done|].
  rewrite !imap_cons. cbn [mjoin list_join]. rewrite !fmap_app.
  f_equal; [apply Hext|]. apply IH. intros i y. apply Hext.
Qed.

(** The search does not see the case of a keyword: two keywords with the
    same lower-case form are reported on the same lines with the same
    snippets. *)
Theorem search_ignores_keyword_case (file_path kw1 kw2 : string) :
  lower E kw1 = lower E kw2 →
  (λ h, (line h, line_snippet h)) <$> search_keywords_in_json_text E file_path [kw1] =
  (λ h, (line h, line_snippet h)) <$> search_keywords_in_json_text E file_path [kw2].
Proof.
  intros Hlower.
  destruct (endswith file_path ".json") eqn:Hjson; cycle 1.
  { unfold search_keywords_in_json_text, search_state. by rewrite Hjson. }
  destruct (open_text E file_path) as [f|e] eqn:Hopen; cycle 1.
  { unfold search_keywords_in_json_text, search_state, try_scan.
    by rewrite Hjson, Hopen. }
  unfold search_keywords_in_json_text.
  destruct (search_state_opened E file_path [kw1] f Hjson Hopen) as [-> _].
  destruct (search_state_opened E file_path [kw2] f Hjson Hopen) as [-> _].
  apply join_imap_fmap_ext. intros i text. unfold hits_of_line.
  rewrite !filter_cons, !filter_nil, Hlower.
  by destruct (decide (str_contains (lower E kw2) (lower E text))).
Qed.
End KeywordFilterOrder.

Lemma search_sample_hit :
  ∃ h,
    h ∈ KeywordFilter.search_keywords_in_json_text KeywordFilter.sample_env
          "repo.json" ["unit"; "junit"] ∧
    KeywordFilter.keyword h = "junit" ∧ KeywordFilter.line h = 3.
Proof.
  eexists {| KeywordFilter.keyword := "junit"; KeywordFilter.line := 3 |}.
  split; [|done].
  apply (elem_of_search KeywordFilter.sample_env _ _
           {| KeywordFilter.file_lines := ["Unit tests"; "no match"; "JUnit and unit"];
              KeywordFilter.read_error := Some OtherError |}); [done..|].
  exists 2%nat, "JUnit and unit". cbn.
  split; [done|]. split; [apply list_elem_of_further, list_elem_of_here|done].
Qed.

Lemma search_reports_exactly_the_matching_lines_witness :
  ∃ h,
    h ∈ KeywordFilter.search_keywords_in_json_text KeywordFilter.sample_env
          "repo.json" ["unit"; "junit"] ∧
    KeywordFilter.keyword h = "junit" ∧ KeywordFilter.line h = 3.
Proof.
  apply (search_reports_exactly_the_matching_lines KeywordFilter.sample_env).
  split; [reflexivity|].
  eexists. split; [reflexivity|].
  split; [apply list_elem_of_further, list_elem_of_here|].
  exists 2%nat, "JUnit and unit". repeat split.
Defined.

Lemma search_hits_describe_their_line_witness :
  ∃ h,
    h ∈ KeywordFilter.search_keywords_in_json_text KeywordFilter.sample_env
          "repo.json" ["unit"; "junit"] ∧
    KeywordFilter.line h = 3 ∧
    KeywordFilter.line_snippet h = "JUnit and unit".
Proof.
  destruct search_sample_hit as (h & Hh & _ & Hline).
  exists h. split; [exact Hh|]. split; [exact Hline|].
  destruct (search_hits_describe_their_line KeywordFilter.sample_env
              "repo.json" ["unit"; "junit"] _ h eq_refl eq_refl Hh)
    as (_ & _ & _ & text & Htext & _ & Hshort).
  rewrite Hline in Htext. cbn in Htext. injection Htext as <-.
  apply Hshort. cbn. lia.
Defined.

Lemma search_ignores_keyword_case_witness :
  (λ h, (KeywordFilter.line h, KeywordFilter.line_snippet h)) <$>
    KeywordFilter.search_keywords_in_json_text KeywordFilter.sample_env
      "repo.json" ["UNIT"] =
  (λ h, (KeywordFilter.line h, KeywordFilter.line_snippet h)) <$>
    KeywordFilter.search_keywords_in_json_text KeywordFilter.sample_env
      "repo.json" ["unit"].
Proof.
  apply (search_ignores_keyword_case KeywordFilter.sample_env). reflexivity.
Defined.

(** * The history export *)

Section ExportFacts.
Import ExtractHistory.
Context (E : ExtractHistory.Env).

Lemma history_loop_app (git_url : string) (years_back : Z) (st : LoopState)
    (l1 l2 : list GitCommit) :
  history_loop E git_url years_back st (l1 ++ l2) =
  st' ← history_loop E git_url years_back st l1;
  history_loop E git_url years_back st' l2.
Proof.
  revert st. induction l1 as [|c l1 IH]; intros st; [done|].
  cbn [app history_loop].
  destruct (history_step E git_url years_back st c) as [st'|e]; [|done].
  apply IH.
Qed.

Lemma exported_cons (years_back : Z) (c : GitCommit) (commits : list GitCommit) :
  exported E years_back (c :: commits) =
  match in_window E years_back c with
  | Some date => make_info E c date :: exported E years_back commits
  | None => exported E years_back commits
  end.
Proof.
  unfold exported. cbn [omap list_omap]. by destruct (in_window E years_back c).
Qed.

(** The loop on a history whose timestamps all convert. *)
Lemma history_loop_dated (git_url : string) (years_back : Z) (st : LoopState)
    (commits : list GitCommit) :
  Forall (dated E) commits →
  history_loop E git_url years_back st commits =
  Ok {| commits_data := commits_data st ++ exported E years_back commits;
        parsed_url := match exported E years_back commits with
                      | [] => parsed_url st
                      | _ => Some (url_path E git_url)
                      end |}.
Proof.
  intros Hdated. revert st.
  induction Hdated as [|c commits [date Hdate] _ IH]; intros st.
  - cbn. rewrite app_nil_r. by destruct st.
  - cbn [history_loop]. rewrite exported_cons.
    unfold history_step, in_window. rewrite Hdate. cbn [mbind result_bind].
    destruct (date <? start_date E years_back) eqn:Hold;
      cbn [mbind result_bind].
    + apply IH.
    + rewrite IH. cbn [commits_data parsed_url]. f_equal. f_equal.
      * by rewrite <- app_assoc.
      * by destruct (exported E years_back commits).
Qed.

Lemma exported_nil_iff (years_back : Z) (commits : list GitCommit) :
  exported E years_back commits = [] ↔
  ∀ c, c ∈ commits → in_window E years_back c = None.
Proof.
  induction commits as [|c commits IH].
  - split; [|done]. intros _ c Hc. by apply elem_of_nil in Hc.
  - rewrite exported_cons.
    destruct (in_window E years_back c) as [date|] eqn:Hc.
    + split; [done|]. intros Hall.
      specialize (Hall c (list_elem_of_here _ _)). congruence.
    + rewrite IH. split.
      * intros Hall c' Hc'. apply elem_of_cons in Hc' as [->|Hc']; auto.
      * intros Hall c' Hc'. apply Hall. by apply list_elem_of_further.
Qed.

Lemma exported_hashes (years_back : Z) (commits : list GitCommit) :
  commit_hash <$> exported E years_back commits =
  hexsha <$> filter (λ c, is_Some (in_window E years_back c)) commits.
Proof.
  induction commits as [|c commits IH]; [done|].
  rewrite exported_cons, filter_cons.
  destruct (in_window E years_back c) as [date|] eqn:Hc.
  - rewrite decide_True by (by eexists).
    rewrite !fmap_cons, <- IH. f_equal.
    unfold make_info. by destruct (tree c) as [[??]|].
  - rewrite decide_False; [exact IH|]. by intros [??].
Qed.

Lemma elem_of_exported (years_back : Z) (commits : list GitCommit)
    (info : CommitInfo) :
  info ∈ exported E years_back commits ↔
  ∃ c date, c ∈ commits ∧ in_window E years_back c = Some date ∧
            info = make_info E c date.
Proof.
  unfold exported. rewrite list_elem_of_omap. split.
  - intros (c & Hc & Hinfo).
    destruct (in_window E years_back c) as [date|] eqn:Hw; [|done].
    cbn in Hinfo. exists c, date. by simplify_eq.
  - intros (c & date & Hc & Hw & ->). exists c. by rewrite Hw.
Qed.

Lemma extract_commit_history_dated (git_url : string) (years_back : Z)
    (commits : list GitCommit) :
  Forall (dated E) commits →
  extract_commit_history E git_url years_back commits =
  match exported E years_back commits with
  | [] => Failed UnboundLocalError
  | data => Returned (json_output_file (url_path E git_url), data)
  end.
Proof.
  intros Hdated. unfold extract_commit_history.
  rewrite history_loop_dated by done. cbn [commits_data parsed_url app].
  by destruct (exported E years_back commits).
Qed.

(** When every commit timestamp converts, the export ends with
    [UnboundLocalError] exactly when no commit lies inside the window, the
    empty history included: [parsed_url] is assigned at the end of the loop
    body, after the [continue] of the older commits, and read after the
    loop. *)
Theorem export_needs_a_commit_in_the_window (git_url : string) (years_back : Z)
    (commits : list GitCommit) :
  Forall (dated E) commits →
  (extract_commit_history E git_url years_back commits = Failed UnboundLocalError
   ↔ ∀ c, c ∈ commits → in_window E years_back c = None).
Proof.
  intros Hdated. rewrite extract_commit_history_dated by done.
  rewrite <- exported_nil_iff.
  destruct (exported E years_back commits); split; done.
Qed.

(** The timestamp conversion at the head of the loop body is
    outside every [try]: the first commit whose timestamp does not convert
    ends the export with that exception, whatever the commits before and
    after it are, and nothing is written. *)
Theorem export_aborts_on_unconvertible_timestamp (git_url : string)
    (years_back : Z) (before after : list GitCommit) (c : GitCommit) (e : exn) :
  Forall (dated E) before →
  fromtimestamp E (committed_date c) = Raise e →
  extract_commit_history E git_url years_back (before ++ c :: after) =
  Failed (LibraryError e).
Proof.
  intros Hbefore Hc. unfold extract_commit_history.
  rewrite history_loop_app, history_loop_dated by done.
  cbn [mbind result_bind history_loop]. unfold history_step.
  by rewrite Hc.
Qed.

(** When every timestamp converts and some commit lies in the
    window, the export returns; the file is named after the path of the URL
    and the dumped list holds one dict per commit of the window, in the
    order of the walk. *)
Theorem export_lists_the_window_in_walk_order (git_url : string)
    (years_back : Z) (commits : list GitCommit) (c : GitCommit) :
  Forall (dated E) commits →
  c ∈ commits →
  is_Some (in_window E years_back c) →
  ∃ data,
    extract_commit_history E git_url years_back commits =
      Returned (json_output_file (url_path E git_url), data) ∧
    commit_hash <$> data =
      hexsha <$> filter (λ c, is_Some (in_window E years_back c)) commits ∧
    hexsha c ∈ commit_hash <$> data.
Proof.
  intros Hdated Hc Hw. exists (exported E years_back commits).
  rewrite extract_commit_history_dated by done.
  assert (hexsha c ∈ commit_hash <$> exported E years_back commits) as Hin.
  { rewrite exported_hashes. apply list_elem_of_fmap. exists c.
    split; [done|]. by apply list_elem_of_filter. }
  split; [|split; [apply exported_hashes|done]].
  destruct (exported E years_back commits); [|done].
  by apply elem_of_nil in Hin.
Qed.

Lemma make_info_files_changed (c : GitCommit) (date : Z) :
  NoDup (files_changed (make_info E c date)) ∧
  ∀ file, file ∈ files_changed (make_info E c date) ↔
          is_Some (stats_files c !! file).
Proof.
  assert (files_changed (make_info E c date) = (map_to_list (stats_files c)).*1)
    as ->.
  { unfold make_info. by destruct (tree c) as [[??]|]. }
  split; [apply NoDup_fst_map_to_list|]. intros file. split.
  - intros ([file' stat] & -> & Hstat)%list_elem_of_fmap.
    apply elem_of_map_to_list in Hstat. by eexists.
  - intros [stat Hstat]. apply list_elem_of_fmap. exists (file, stat).
    split; [done|]. by apply elem_of_map_to_list.
Qed.

Lemma make_info_tree (c : GitCommit) (date : Z) :
  (∀ e, tree c = Raise e →
     tree_id (make_info E c date) = None ∧ blob_ids (make_info E c date) = []) ∧
  (∀ t blobs, tree c = Ok (t, blobs) →
     tree_id (make_info E c date) = Some t ∧
     blob_ids (make_info E c date) = blobs).
Proof.
  unfold make_info. split.
  - intros e ->. done.
  - intros t blobs ->. done.
Qed.

(** A commit of the window whose tree cannot be read is exported
    all the same, with [tree_id] [None] and no blob id; when the tree is read
    the dict carries its id and its blobs.  In both cases the dict has the
    ISO form of the converted date and [files_changed] lists each key of the
    per-file statistics once. *)
Theorem export_keeps_commits_without_tree (git_url : string) (years_back : Z)
    (commits : list GitCommit) (c : GitCommit) (date : Z) :
  Forall (dated E) commits →
  c ∈ commits →
  in_window E years_back c = Some date →
  ∃ name data info,
    extract_commit_history E git_url years_back commits = Returned (name, data) ∧
    info ∈ data ∧
    commit_hash info = hexsha c ∧
    commit_date info = isoformat E date ∧
    (∀ e, tree c = Raise e → tree_id info = None ∧ blob_ids info = []) ∧
    (∀ t blobs, tree c = Ok (t, blobs) →
       tree_id info = Some t ∧ blob_ids info = blobs) ∧
    NoDup (files_changed info) ∧
    (∀ file, file ∈ files_changed info ↔ is_Some (stats_files c !! file)).
Proof.
  intros Hdated Hc Hw.
  exists (json_output_file (url_path E git_url)), (exported E years_back commits),
    (make_info E c date).
  assert (make_info E c date ∈ exported E years_back commits) as Hin.
  { apply elem_of_exported. by exists c, date. }
  split.
  { rewrite extract_commit_history_dated by done.
    destruct (exported E years_back commits); [|done].
    by apply elem_of_nil in Hin. }
  split; [done|].
  split; [unfold make_info; by destruct (tree c) as [[??]|]|].
  split; [unfold make_info; by destruct (tree c) as [[??]|]|].
  split; [apply make_info_tree|].
  split; [apply make_info_tree|].
  apply make_info_files_changed.
Qed.
End ExportFacts.

Lemma export_needs_a_commit_in_the_window_witness :
  ExtractHistory.extract_commit_history ExtractHistory.sample_env
    "https://github.com/pallets/flask.git" 10
    [ExtractHistory.sample_commit "h1" 100 (Ok ("t1", ["b1"]))] =
  ExtractHistory.Failed ExtractHistory.UnboundLocalError.
Proof.
  apply (export_needs_a_commit_in_the_window ExtractHistory.sample_env).
  - repeat constructor. by exists 100.
  - intros c ->%list_elem_of_singleton. reflexivity.
Defined.

Lemma export_aborts_on_unconvertible_timestamp_witness :
  ExtractHistory.extract_commit_history ExtractHistory.sample_env
    "https://github.com/pallets/flask.git" 10
    ([ExtractHistory.sample_commit "h3" 9000 (Ok ("t3", ["b3"]))] ++
     ExtractHistory.sample_commit "h2" (-1) (Ok ("t2", ["b2"])) ::
     [ExtractHistory.sample_commit "h1" 9500 (Ok ("t1", ["b1"]))]) =
  ExtractHistory.Failed (ExtractHistory.LibraryError OtherError).
Proof.
  apply (export_aborts_on_unconvertible_timestamp ExtractHistory.sample_env).
  - repeat constructor. by exists 9000.
  - reflexivity.
Defined.

Lemma export_lists_the_window_in_walk_order_witness :
  ∃ data,
    ExtractHistory.extract_commit_history ExtractHistory.sample_env
      "https://github.com/pallets/flask.git" 10
      [ExtractHistory.sample_commit "h3" 9000 (Ok ("t3", ["b3"]));
       ExtractHistory.sample_commit "h2" 100 (Ok ("t2", ["b2"]));
       ExtractHistory.sample_commit "h1" 8000 (Raise OtherError)] =
      ExtractHistory.Returned
        (ExtractHistory.json_output_file "/pallets/flask.git", data) ∧
    ExtractHistory.commit_hash <$> data = ["h3"; "h1"] ∧
    "h1" ∈ ExtractHistory.commit_hash <$> data.
Proof.
  destruct (export_lists_the_window_in_walk_order ExtractHistory.sample_env
              "https://github.com/pallets/flask.git" 10
              [ExtractHistory.sample_commit "h3" 9000 (Ok ("t3", ["b3"]));
               ExtractHistory.sample_commit "h2" 100 (Ok ("t2", ["b2"]));
               ExtractHistory.sample_commit "h1" 8000 (Raise OtherError)]
              (ExtractHistory.sample_commit "h1" 8000 (Raise OtherError)))
    as (data & Hrun & Hhash & Hin).
  - repeat constructor; by eexists.
  - do 2 apply list_elem_of_further. apply list_elem_of_here.
  - by exists 8000.
  - exists data. split; [exact Hrun|]. split; [exact Hhash|exact Hin].
Defined.

Lemma export_keeps_commits_without_tree_witness :
  ∃ name data info,
    ExtractHistory.extract_commit_history ExtractHistory.sample_env
      "https://github.com/pallets/flask.git" 10
      [ExtractHistory.sample_commit "h3" 9000 (Ok ("t3", ["b3"]));
       ExtractHistory.sample_commit "h1" 8000 (Raise OtherError)] =
      ExtractHistory.Returned (name, data) ∧
    info ∈ data ∧
    ExtractHistory.commit_hash info = "h1" ∧
    ExtractHistory.tree_id info = None ∧
    ExtractHistory.blob_ids info = [].
Proof.
  destruct (export_keeps_commits_without_tree ExtractHistory.sample_env
              "https://github.com/pallets/flask.git" 10
              [ExtractHistory.sample_commit "h3" 9000 (Ok ("t3", ["b3"]));
               ExtractHistory.sample_commit "h1" 8000 (Raise OtherError)]
              (ExtractHistory.sample_commit "h1" 8000 (Raise OtherError)) 8000)
    as (name & data & info & Hrun & Hin & Hhash & _ & Hraise & _).
  - repeat constructor; by eexists.
  - apply list_elem_of_further, list_elem_of_here.
  - reflexivity.
  - exists name, data, info.
    destruct (Hraise OtherError eq_refl) as [Htree Hblobs].
    repeat split; assumption.
Defined.

(** * The name of the exported file *)

Section FileNameFacts.
Import Stdlib.Strings.Ascii.
Import PyStr.

Lemma append_nil (t : string) : "" +:+ t = t.
Proof. reflexivity. Qed.

Lemma append_cons (d : ascii) (s t : string) :
  String d s +:+ t = String d (s +:+ t).
Proof. reflexivity. Qed.

Lemma has_char_app (c : ascii) (s t : string) :
  has_char c (s +:+ t) = has_char c s || has_char c t.
Proof.
  induction s as [|d s IH]; [done|].
  rewrite append_cons. cbn [has_char]. by rewrite IH, orb_assoc.
Qed.

Lemma rfind_absent (c : ascii) (s : string) :
  has_char c s = false → rfind c s = -1.
Proof.
  induction s as [|d s IH]; [done|]. cbn [has_char rfind].
  intros [Hd Hs]%orb_false_elim. rewrite IH by done. cbn. by rewrite Hd.
Qed.

(** The last occurrence: nothing after it is [c]. *)
Lemma rfind_last (c : ascii) (s t : string) :
  has_char c t = false →
  rfind c (s +:+ String c t) = Z.of_nat (String.length s).
Proof.
  intros Ht. induction s as [|d s IH].
  - rewrite append_nil. cbn [rfind String.length].
    rewrite rfind_absent by done. cbn. by rewrite Ascii.eqb_refl.
  - rewrite append_cons. cbn [rfind String.length]. rewrite IH.
    destruct (0 <=? Z.of_nat (String.length s)) eqn:Hle; lia.
Qed.

Lemma substring_all (t : string) : String.substring 0 (String.length t) t = t.
Proof. induction t as [|d t IH]; [done|]. cbn. by rewrite IH. Qed.

Lemma slice_from_app (s t : string) : slice_from (String.length s) (s +:+ t) = t.
Proof.
  induction s as [|d s IH].
  - unfold slice_from. rewrite append_nil. cbn [String.length].
    rewrite Nat.sub_0_r. apply substring_all.
  - rewrite append_cons. exact IH.
Qed.

Lemma slice_to_app (s t : string) : slice_to (String.length s) (s +:+ t) = s.
Proof.
  unfold slice_to. induction s as [|d s IH].
  - rewrite append_nil. by destruct t.
  - rewrite append_cons. cbn. by rewrite IH.
Qed.

(** [os.path.basename] returns what follows the last separator. *)
Lemma basename_app (dir name : string) :
  has_char "/" name = false →
  basename (dir +:+ String "/" name) = name.
Proof.
  intros Hname. unfold basename. rewrite rfind_last by done.
  replace (Z.to_nat (Z.of_nat (String.length dir) + 1))
    with (String.length (dir +:+ "/")).
  - replace (dir +:+ String "/" name) with ((dir +:+ "/") +:+ name).
    + apply slice_from_app.
    + clear. induction dir as [|d dir IH]; [done|].
      rewrite !append_cons. by rewrite IH.
  - clear. induction dir as [|d dir IH]; [done|].
    rewrite append_cons. cbn [String.length]. rewrite IH. lia.
Qed.

(** [os.path.splitext] cuts at the last dot of a name without separator
    whose stem is not made of dots only. *)
Lemma splitext_stem (stem ext : string) :
  has_char "/" stem = false →
  all_chars "." stem = false →
  has_char "/" ext = false →
  has_char "." ext = false →
  splitext (stem +:+ String "." ext) = (stem, String "." ext).
Proof.
  intros Hsep Hdots Hsep' Hdot. unfold splitext.
  rewrite (rfind_absent "/"), (rfind_last ".") by
    (try done; rewrite has_char_app; cbn [has_char]; by rewrite Hsep, Hsep').
  cbv zeta.
  rewrite (proj2 (Z.ltb_lt (-1) (Z.of_nat (String.length stem)))) by lia.
  replace (Z.to_nat (-1 + 1)) with 0%nat by done.
  replace (Z.to_nat (Z.of_nat (String.length stem) - (-1 + 1)))
    with (String.length stem) by lia.
  rewrite Nat2Z.id.
  fold (slice_to (String.length stem) (stem +:+ String "." ext)).
  by rewrite slice_to_app, Hdots, slice_from_app.
Qed.

(** Trailing separators do not change the first component. *)
Lemma split_first_rstrip (c : ascii) (s : string) :
  split_first c (rstrip c s) = split_first c s.
Proof.
  induction s as [|d s IH]; [done|]. cbn [rstrip split_first].
  destruct (rstrip c s) as [|e r] eqn:Hr.
  - destruct (Ascii.eqb d c) eqn:Hd; [done|].
    cbn [split_first]. rewrite Hd. by rewrite <- IH.
  - cbn [split_first]. destruct (Ascii.eqb d c); [done|].
    by rewrite <- IH.
Qed.

Lemma split_first_app (c : ascii) (s t : string) :
  has_char c s = false → split_first c (s +:+ String c t) = s.
Proof.
  induction s as [|d s IH].
  - intros _. rewrite append_nil. cbn [split_first]. by rewrite Ascii.eqb_refl.
  - rewrite append_cons. cbn [split_first has_char].
    intros [Hd Hs]%orb_false_elim. by rewrite Hd, IH.
Qed.

Lemma lstrip_other (c : ascii) (s t : string) :
  s ≠ "" → has_char c s = false → lstrip c (s +:+ t) = s +:+ t.
Proof.
  destruct s as [|d s]; [done|]. rewrite append_cons. cbn [lstrip has_char].
  intros _ [Hd _]%orb_false_elim. by rewrite Hd.
Qed.

(** For a URL whose path is [/owner/repo.ext], as in
    [https://github.com/pallets/flask.git], the export is written to
    [owner_repo.json]: the extension is dropped and the two components are
    joined by an underscore. *)
Theorem export_file_is_named_after_owner_and_repository (owner repo ext : string) :
  owner ≠ "" →
  has_char "/" owner = false →
  has_char "/" repo = false →
  all_chars "." repo = false →
  has_char "/" ext = false →
  has_char "." ext = false →
  ExtractHistory.json_output_file
    ("/" +:+ owner +:+ "/" +:+ repo +:+ "." +:+ ext) =
  owner +:+ "_" +:+ repo +:+ ".json".
Proof.
  intros Howner Hsep Hrepo Hdots Hext Hdot.
  unfold ExtractHistory.json_output_file. cbv zeta.
  rewrite !append_cons, !append_nil.
  assert (has_char "/" (repo +:+ String "." ext) = false) as Hname.
  { rewrite has_char_app. cbn [has_char]. by rewrite Hrepo, Hext. }
  rewrite <- (append_cons "/" owner) at 2.
  rewrite basename_app, splitext_stem by done.
  unfold strip. rewrite split_first_rstrip.
  cbn [lstrip fst]. rewrite Ascii.eqb_refl.
  by rewrite lstrip_other, split_first_app.
Qed.
End FileNameFacts.

Lemma export_file_is_named_after_owner_and_repository_witness :
  ExtractHistory.json_output_file "/pallets/flask.git" = "pallets_flask.json".
Proof.
  apply (export_file_is_named_after_owner_and_repository "pallets" "flask" "git");
    done.
Defined.

(** * The driver *)

Section DriverFacts.
Import Main.
Context {V : Type} (E : Main.Env V).

Lemma calls_of_cons (row : gmap string V) (url : V) (rows : list (gmap string V)) :
  row !! "URL" = Some url → calls_of (row :: rows) = (url, 10) :: calls_of rows.
Proof. intros Hurl. unfold calls_of. cbn [omap list_omap]. by rewrite Hurl. Qed.

(** The loop over a stretch of rows that are all handled and all below the
    limit. *)
Lemma process_rows_handled (i limit : Z) (before rest : list (gmap string V))
    (calls : list (V * Z)) :
  Forall (handled E) before →
  i + Z.of_nat (length before) ≤ limit →
  process_rows E i limit (before ++ rest) calls =
  process_rows E (i + Z.of_nat (length before)) limit rest
    (calls ++ calls_of before).
Proof.
  intros Hbefore. revert i calls.
  induction Hbefore as [|row before (url & Hurl & Hok) _ IH]; intros i calls Hlen.
  - cbn [app length]. by rewrite Z.add_0_r, app_nil_r.
  - cbn [app length process_rows] in *.
    rewrite (proj2 (Z.leb_gt limit i)) by lia.
    rewrite Hurl, Hok, IH by lia.
    rewrite (calls_of_cons _ url) by done. rewrite <- app_assoc.
    f_equal. lia.
Qed.

Lemma process_rows_at_limit (i limit : Z) (rows : list (gmap string V))
    (calls : list (V * Z)) :
  limit ≤ i → process_rows E i limit rows calls = (calls, Ok ()).
Proof.
  intros Hi. destruct rows as [|row rows]; [done|].
  cbn [process_rows]. by rewrite (proj2 (Z.leb_le limit i)).
Qed.


(** Nothing in the loop is guarded: the first row below the limit
    that has no ['URL'] column ends the driver with [KeyError], and the first
    one whose extraction raises ends it with that exception; the rows after
    it are not processed, whatever they hold. *)
Theorem process_repos_stops_at_the_first_failure
    (before after : list (gmap string V)) (row : gmap string V) (limit : Z) :
  Forall (handled E) before →
  Z.of_nat (length before) < limit →
  (row !! "URL" = None →
   process_repos E (before ++ row :: after) limit =
   (calls_of before, Raise KeyError)) ∧
  (∀ url e,
     row !! "URL" = Some url →
     extract_commit_history_from_url E url 10 = Raise e →
     process_repos E (before ++ row :: after) limit =
     (calls_of before ++ [(url, 10)], Raise e)).
Proof.
  intros Hbefore Hlen. unfold process_repos.
  rewrite process_rows_handled by (try done; lia).
  cbn [process_rows app].
  rewrite (proj2 (Z.leb_gt limit (0 + Z.of_nat (length before)))) by lia.
  split.
  - by intros ->.
  - intros url e -> ->. done.
Qed.
End DriverFacts.


Lemma process_repos_stops_at_the_first_failure_witness :
  Main.process_repos Main.sample_env
    ([{[ "URL" := "a" ]}] ++ {[ "URL" := "bad" ]} :: [{[ "URL" := "c" ]}]) 5 =
  ([("a", 10); ("bad", 10)], Raise OtherError).
Proof.
  etrans.
  - apply (process_repos_stops_at_the_first_failure Main.sample_env
             [{[ "URL" := "a" ]}] [{[ "URL" := "c" ]}] {[ "URL" := "bad" ]} 5).
    + repeat constructor; eexists; (split; [apply lookup_singleton_eq|reflexivity]).
    + cbn. lia.
    + apply lookup_singleton_eq.
    + reflexivity.
  - vm_compute. reflexivity.
Defined.

(** * The plots *)

Lemma plot_loop_dated (df : DataFrame) (saved : list string)
    (rest : list (string * string)) :
  "commit_date" ∈ df_columns df →
  Plot.plot_loop df saved rest =
  Ok (saved ++ (Plot.plot_file ∘ fst <$>
                  filter (λ metric, metric.1 ∈ df_columns df) rest)).
Proof.
  intros Hdate. revert saved.
  induction rest as [|metric rest IH]; intros saved.
  - cbn. by rewrite app_nil_r.
  - cbn [Plot.plot_loop]. unfold Plot.plot_step. cbv zeta.
    rewrite filter_cons.
    destruct (decide (metric.1 ∈ df_columns df)) as [Hin|Hout].
    + rewrite bool_decide_eq_true_2 by done. unfold df_getitem.
      rewrite !bool_decide_eq_true_2 by done. cbn [mbind result_bind].
      rewrite IH, fmap_cons, <- app_assoc. done.
    + rewrite bool_decide_eq_false_2 by done. cbn [mbind result_bind].
      apply IH.
Qed.

Lemma plot_loop_undated (df : DataFrame) (saved : list string)
    (rest : list (string * string)) (metric : string * string) :
  "commit_date" ∉ df_columns df →
  metric ∈ rest →
  metric.1 ∈ df_columns df →
  Plot.plot_loop df saved rest = Raise KeyError.
Proof.
  intros Hdate Hin Hcol. revert saved.
  induction rest as [|m rest IH]; intros saved.
  - by apply elem_of_nil in Hin.
  - cbn [Plot.plot_loop]. unfold Plot.plot_step. cbv zeta.
    destruct (decide (m.1 ∈ df_columns df)) as [Hm|Hm].
    + rewrite bool_decide_eq_true_2 by done. unfold df_getitem.
      rewrite (bool_decide_eq_false_2 ("commit_date" ∈ df_columns df)) by done.
      reflexivity.
    + rewrite bool_decide_eq_false_2 by done. cbn [mbind result_bind].
      apply elem_of_cons in Hin as [->|Hin]; [done|]. by apply IH.
Qed.

(** [plot_metrics] saves one figure per metric column the table
    has, in the order of its list of metrics, named [plot_<column>.png]; a
    metric the table lacks is passed over without error.  It needs the
    [commit_date] column for the horizontal axis: without it the first metric
    found in the table raises [KeyError]. *)
Theorem plot_metrics_saves_the_columns_present (df : DataFrame) :
  ("commit_date" ∈ df_columns df →
   Plot.plot_metrics df =
   Ok (Plot.plot_file ∘ fst <$>
         filter (λ metric, metric.1 ∈ df_columns df) Plot.metrics)) ∧
  ("commit_date" ∉ df_columns df →
   ∀ metric, metric ∈ Plot.metrics → metric.1 ∈ df_columns df →
   Plot.plot_metrics df = Raise KeyError).
Proof.
  split.
  - intros Hdate. unfold Plot.plot_metrics. by rewrite plot_loop_dated.
  - intros Hdate metric Hin Hcol. by apply (plot_loop_undated df [] _ metric).
Qed.

Lemma analyze_repository_columns (E : Env) (S : SortValues)
    (commits : list Commit) (df : DataFrame) :
  analyze_repository E commits = Ok df → df_columns df = record_keys.
Proof.
  unfold analyze_repository.
  destruct (walk E commits) as [st|e]; [|intros H; discriminate H].
  cbn [mbind result_bind]. destruct (data st) as [|r rows].
  - rewrite assemble_nil. intros H; discriminate H.
  - rewrite assemble_cons. intros Hdf. apply Ok_inj in Hdf as <-. reflexivity.
Qed.

(** Whenever the analysis returns a table, [run_analysis_from_url]
    saves all ten figures: the table of [analyze_repository] always has the
    thirteen columns, so the column test of [plot_metrics] never skips a
    metric there and the [commit_date] axis is always found. *)
Theorem run_analysis_saves_a_plot_per_metric (E : Env) (S : SortValues)
    (commits : list Commit) (df : DataFrame) :
  analyze_repository E commits = Ok df →
  Plot.run_analysis_from_url E commits =
    Ok (Plot.plot_file ∘ fst <$> Plot.metrics) ∧
  length (Plot.plot_file ∘ fst <$> Plot.metrics) = 10%nat.
Proof.
  intros Hdf. split; [|reflexivity].
  unfold Plot.run_analysis_from_url. rewrite Hdf. cbn [mbind result_bind].
  unfold Plot.plot_metrics.
  pose proof (analyze_repository_columns E S commits df Hdf) as Hcols.
  rewrite plot_loop_dated; rewrite Hcols.
  - cbn [app]. do 2 f_equal.
  - unfold record_keys. apply list_elem_of_further, list_elem_of_here.
Qed.

Lemma plot_metrics_saves_the_columns_present_witness :
  Plot.plot_metrics {| df_columns := ["commit_date"; "code_entropy"];
                       df_rows := [] |} =
  Ok ["plot_code_entropy.png"].
Proof.
  etrans.
  - apply (plot_metrics_saves_the_columns_present
             {| df_columns := ["commit_date"; "code_entropy"]; df_rows := [] |}).
    apply list_elem_of_here.
  - vm_compute. reflexivity.
Defined.

Lemma analyze_repository_sample_returns :
  ∃ df, @analyze_repository Sample.env merge_sort_values
          [Sample.c_stale; Sample.c_docs; Sample.c_empty] = Ok df.
Proof.
  assert (qualifying Sample.env [Sample.c_stale; Sample.c_docs; Sample.c_empty] =
          Sample.c_docs :: [Sample.c_empty]) as Hq by reflexivity.
  destruct (walk_first_commit_with_files Sample.env _ _ _ Hq) as [st Hwalk];
    [apply insert_non_empty|].
  destruct (walk_from_records Sample.env _ _ _ Hwalk) as (rs & Hdata & Hall & _).
  cbn in Hdata. apply Forall2_length in Hall.
  assert (Hne : data st ≠ []).
  { rewrite Hdata. intros ->. rewrite Hq in Hall. discriminate Hall. }
  eexists. by apply analyze_repository_walk.
Qed.

Lemma run_analysis_saves_a_plot_per_metric_witness :
  @Plot.run_analysis_from_url Sample.env merge_sort_values
    [Sample.c_stale; Sample.c_docs; Sample.c_empty] =
  Ok (Plot.plot_file ∘ fst <$> Plot.metrics).
Proof.
  destruct analyze_repository_sample_returns as [df Hdf].
  apply (run_analysis_saves_a_plot_per_metric Sample.env merge_sort_values
           [Sample.c_stale; Sample.c_docs; Sample.c_empty] df Hdf).
Defined.

(** * The estimator in binary64 arithmetic *)

Section Binary64Facts.
Import Stdlib.Floats.SpecFloat.
Import Binary64.

(** ** The sign of a rounded value *)

Lemma binary_round_aux_opp (s : bool) (m e : Z) (l : location) :
  binary_round_aux 53 1024 (negb s) m e l =
  SFopp (binary_round_aux 53 1024 s m e l).
Proof.
  unfold binary_round_aux.
  destruct (shr_fexp 53 1024 m e l) as [mrs' e'].
  destruct (shr_fexp 53 1024 _ e' loc_Exact) as [mrs'' e''].
  destruct (shr_m mrs'') as [|p|p]; [done| |done].
  by destruct (e'' <=? 1024 - 53).
Qed.

Lemma binary_round_opp (s : bool) (m : positive) (e : Z) :
  binary_round 53 1024 (negb s) m e = SFopp (binary_round 53 1024 s m e).
Proof.
  unfold binary_round. destruct (shl_align m e _) as [mz ez].
  apply binary_round_aux_opp.
Qed.

Lemma binary_normalize_opp (m e : Z) :
  m ≠ 0 →
  binary_normalize 53 1024 (- m) e false =
  SFopp (binary_normalize 53 1024 m e false).
Proof.
  destruct m as [|p|p]; [done| |]; intros _; cbn [Z.opp binary_normalize].
  - apply (binary_round_opp false).
  - by rewrite <- (binary_round_opp true).
Qed.

Lemma fmul_opp_l (x y : float) : fmul (fopp x) y = fopp (fmul x y).
Proof.
  unfold fmul, fopp.
  destruct x as [sx|sx| |sx mx ex], y as [sy|sy| |sy my ey]; cbn;
    try reflexivity; try (by destruct sx, sy).
  rewrite <- binary_round_aux_opp. by destruct sx, sy.
Qed.

Lemma cond_Zopp_negb (s : bool) (m : Z) : cond_Zopp (negb s) m = - cond_Zopp s m.
Proof. destruct s; cbn; lia. Qed.

Lemma same_number_trans (x y z : float) :
  same_number x y → same_number y z → same_number x z.
Proof.
  intros [Hxy|(s1 & s2 & Hx & Hy)] [Hyz|(s3 & s4 & Hy' & Hz)]; subst.
  - by left.
  - right. eauto.
  - right. eauto.
  - right. eauto.
Qed.

(** Negating both operands negates the sum, up to the sign of a zero sum. *)
Lemma fadd_opp (x y : float) :
  same_number (fadd (fopp x) (fopp y)) (fopp (fadd x y)).
Proof.
  unfold fadd, fopp.
  destruct x as [sx|sx| |sx mx ex], y as [sy|sy| |sy my ey];
    try (left; reflexivity);
    try solve [destruct sx, sy; cbn; (by left) || (right; eauto)].
  cbn [SFopp SFadd]. rewrite !cond_Zopp_negb.
  set (z := cond_Zopp sx _ + cond_Zopp sy _).
  replace (- cond_Zopp sx (Z.pos (shl_align mx ex (ex `min` ey)).1) +
           - cond_Zopp sy (Z.pos (shl_align my ey (ex `min` ey)).1))
    with (- z) by (unfold z; lia).
  destruct (decide (z = 0)) as [->|Hz].
  - right. cbn. eauto.
  - left. by apply binary_normalize_opp.
Qed.

(** Zeros of either sign are the same left operand of a sum. *)
Lemma fadd_same_number (a a' t : float) :
  same_number a a' → same_number (fadd a t) (fadd a' t).
Proof.
  intros [->|(s & s' & -> & ->)]; [by left|].
  unfold fadd. destruct t as [st|st| |st mt et]; cbn.
  - right. destruct s, s', st; eauto.
  - by left.
  - by left.
  - by left.
Qed.

(** ** Code and specification *)

(** A term of the code and a contribution of the specification fail alike,
    and otherwise are opposite numbers. *)
Lemma contribution_entropy_term (L : Libm) (total count : Z) :
  contribution L total count =
  match entropy_term L total count with
  | Ok t => Ok (fopp t)
  | Raise e => Raise e
  end.
Proof.
  unfold contribution, entropy_term.
  destruct (py_truediv count total) as [p|e]; [|done].
  cbn [mbind result_bind]. destruct (math_log2 L p) as [l|e]; [|done].
  cbn [mbind result_bind]. by rewrite fmul_opp_l.
Qed.

(** The two sums run in step: the accumulator of the specification is the
    opposite of the running total of the code. *)
Lemma sum_floats_opposite (L : Libm) (total : Z) (counts : list Z) (c a : float) :
  same_number (fopp c) a →
  match sum_floats (entropy_term L total) c counts,
        sum_floats (contribution L total) a counts with
  | Ok s, Ok s' => same_number (fopp s) s'
  | Raise e, Raise e' => e = e'
  | _, _ => False
  end.
Proof.
  revert c a. induction counts as [|count counts IH]; intros c a Hca; [done|].
  cbn [sum_floats]. rewrite contribution_entropy_term.
  destruct (entropy_term L total count) as [t|e]; [|done].
  cbn [mbind result_bind]. apply IH.
  apply (same_number_trans _ (fadd (fopp c) (fopp t))).
  - destruct (fadd_opp c t) as [Heq|(s & s' & H1 & H2)]; [by left; rewrite Heq|].
    right. eauto.
  - by apply fadd_same_number.
Qed.

(** The code agrees with the accumulation of the specification on every
    mapping: same exception, or the same number up to the sign of zero. *)
Lemma calculate_entropy_accumulation (L : Libm) (change_counts : list (string * Z)) :
  same_outcome (calculate_entropy L change_counts)
               (shannon_accumulation L change_counts).
Proof.
  unfold calculate_entropy, shannon_accumulation. cbv zeta.
  destruct (py_sum change_counts.*2 =? 0) eqn:Htotal; [done|].
  destruct (change_counts.*2) as [|count counts] eqn:Hcounts.
  { rewrite py_sum_nil in Htotal. discriminate Htotal. }
  unfold py_sum_gen.
  pose proof (sum_floats_opposite L (py_sum (count :: counts)) (count :: counts)
                zero zero) as Hsum.
  destruct (sum_floats (entropy_term L _) zero (count :: counts)) as [s|e];
    destruct (sum_floats (contribution L _) zero (count :: counts)) as [s'|e'];
    cbn [mbind result_bind same_outcome py_neg]; apply Hsum;
    right; by exists true, false.
Qed.

(** ** Quotients *)

Lemma div_eucl_div_mod (a b : Z) : Z.div_eucl a b = (a / b, a mod b).
Proof. unfold Z.div, Z.modulo. by destruct (Z.div_eucl a b). Qed.

(** A non-zero integer divided by itself is [1.0], whatever its size. *)
Lemma py_truediv_same (count : Z) : count ≠ 0 → py_truediv count count = Ok one.
Proof.
  intros Hcount. unfold py_truediv.
  rewrite (proj2 (Z.eqb_neq count 0)) by done.
  assert (∀ s m, fdiv (S754_finite s m 0) (S754_finite s m 0) = one) as Hdiv.
  { intros s m. unfold fdiv, SFdiv, SFdiv_core_binary. cbv zeta.
    replace (Zdigits2 (Z.pos m) + 0 - (Zdigits2 (Z.pos m) + 0)) with 0 by lia.
    change (fexp 53 1024 0 `min` (0 - 0)) with (-53).
    change (0 - 0 - -53) with 53.
    rewrite div_eucl_div_mod, Z.shiftl_mul_pow2 by lia.
    rewrite (Z.mul_comm (Z.pos m)), Z.div_mul, Z.mod_mul by lia.
    unfold new_location, new_location_even, new_location_odd.
    replace (xorb s s) with false by (by destruct s).
    destruct (Z.even (Z.pos m)); vm_compute; reflexivity. }
  destruct count as [|m|m]; [done| |]; cbn [of_int]; by rewrite Hdiv.
Qed.

(** The integer quotient that is rounded is never negative. *)
Lemma shr_1_nonneg (mrs : shr_record) : 0 ≤ shr_m mrs → 0 ≤ shr_m (shr_1 mrs).
Proof.
  destruct mrs as [m r s]. cbn. destruct m as [|[p|p|]|p]; cbn; lia.
Qed.

Lemma iter_pos_shr_1_nonneg (p : positive) (mrs : shr_record) :
  0 ≤ shr_m mrs → 0 ≤ shr_m (iter_pos shr_1 p mrs).
Proof.
  revert mrs. induction p as [p IH|p IH|]; intros mrs Hm; cbn [iter_pos].
  - apply IH, IH. by apply shr_1_nonneg.
  - by apply IH, IH.
  - by apply shr_1_nonneg.
Qed.

Lemma shr_fexp_nonneg (m e : Z) (l : location) :
  0 ≤ m → 0 ≤ shr_m (shr_fexp 53 1024 m e l).1.
Proof.
  intros Hm. unfold shr_fexp, shr.
  assert (0 ≤ shr_m (shr_record_of_loc m l)) by (by destruct l as [|[]]).
  destruct (fexp 53 1024 (Zdigits2 m + e) - e) as [|p|p]; cbn [fst]; [done| |done].
  by apply iter_pos_shr_1_nonneg.
Qed.

(** A rounded non-negative integer keeps the sign it is given and is no
    NaN. *)
Lemma binary_round_aux_sign (s : bool) (m e : Z) (l : location) :
  0 ≤ m →
  match binary_round_aux 53 1024 s m e l with
  | S754_zero s' | S754_infinity s' | S754_finite s' _ _ => s' = s
  | S754_nan => False
  end.
Proof.
  intros Hm. unfold binary_round_aux.
  pose proof (shr_fexp_nonneg m e l Hm) as H1.
  destruct (shr_fexp 53 1024 m e l) as [mrs' e']. cbn [fst] in H1.
  assert (0 ≤ round_nearest_even (shr_m mrs') (loc_of_shr_record mrs')) as H2.
  { unfold round_nearest_even.
    destruct (loc_of_shr_record mrs') as [|[]]; [done| |done|lia].
    destruct (Z.even (shr_m mrs')); lia. }
  pose proof (shr_fexp_nonneg _ e' loc_Exact H2) as H3.
  destruct (shr_fexp 53 1024 _ e' loc_Exact) as [mrs'' e'']. cbn [fst] in H3.
  destruct (shr_m mrs'') as [|p|p]; [done| |lia].
  by destruct (e'' <=? 1024 - 53).
Qed.

(** The quotient of two non-zero integers carries the sign of the exact
    quotient. *)
Lemma fdiv_sign (a b : Z) :
  a ≠ 0 → b ≠ 0 →
  match fdiv (of_int a) (of_int b) with
  | S754_zero s | S754_infinity s | S754_finite s _ _ => s = bool_decide (a * b < 0)
  | S754_nan => False
  end.
Proof.
  intros Ha Hb.
  assert (∀ sa ma sb mb,
            match fdiv (S754_finite sa ma 0) (S754_finite sb mb 0) with
            | S754_zero s | S754_infinity s | S754_finite s _ _ => s = xorb sa sb
            | S754_nan => False
            end) as Hdiv.
  { intros sa ma sb mb. unfold fdiv, SFdiv, SFdiv_core_binary. cbv zeta.
    rewrite div_eucl_div_mod. apply binary_round_aux_sign.
    apply Z.div_pos; [|lia].
    destruct (0 - 0 - _) as [|p|p]; [lia| |lia].
    rewrite Z.shiftl_mul_pow2 by lia. lia. }
  destruct a as [|ma|ma], b as [|mb|mb]; try done; cbn [of_int];
    match goal with
    | |- context [fdiv (S754_finite ?sa _ _) (S754_finite ?sb _ _)] =>
        pose proof (Hdiv sa ma sb mb) as H
    end;
    destruct (fdiv _ _); try done; rewrite H; cbn [xorb];
    symmetry; (apply bool_decide_eq_true_2 || apply bool_decide_eq_false_2); lia.
Qed.
(** ** Exceptions *)

Lemma Raise_inj {A} (e e' : exn) : @Raise A e = Raise e' → e = e'.
Proof. by intros [= ->]. Qed.

Lemma py_truediv_errors (a b : Z) (e : exn) :
  b ≠ 0 → py_truediv a b = Raise e → e = OverflowError.
Proof.
  intros Hb. unfold py_truediv. rewrite (proj2 (Z.eqb_neq b 0)) by done.
  destruct a as [|m|m]; [done| |];
    (destruct (fdiv _ _); intros H; [discriminate H| |discriminate H..];
     by apply Raise_inj in H).
Qed.

Lemma math_log2_errors (L : Libm) (x : float) (e : exn) :
  math_log2 L x = Raise e → e = ValueError.
Proof.
  unfold math_log2. cbv zeta.
  destruct (is_nan _ && negb _); [by intros H; apply Raise_inj in H|].
  destruct (is_inf _ && is_finite _); [by intros H; apply Raise_inj in H|].
  intros H; discriminate H.
Qed.

Lemma entropy_term_errors (L : Libm) (total count : Z) (e : exn) :
  total ≠ 0 →
  entropy_term L total count = Raise e →
  e = ValueError ∨ e = OverflowError.
Proof.
  intros Htotal. unfold entropy_term.
  destruct (py_truediv count total) as [p|e'] eqn:Hp.
  - cbn [mbind result_bind]. destruct (math_log2 L p) as [l|e'] eqn:Hl.
    + intros H; discriminate H.
    + intros H. apply Raise_inj in H as <-. left. by eapply math_log2_errors.
  - intros H. apply Raise_inj in H as <-. right. by eapply py_truediv_errors.
Qed.

(** A count that is zero or has the sign opposite to the total never gives
    a term: its quotient is a zero or negative, or too large for a float. *)
Lemma entropy_term_nonpositive (L : Libm) (total count : Z) :
  total ≠ 0 → count * total <= 0 →
  ∃ e, entropy_term L total count = Raise e.
Proof.
  intros Htotal Hsign. unfold entropy_term, py_truediv.
  rewrite (proj2 (Z.eqb_neq total 0)) by done.
  destruct (decide (count = 0)) as [->|Hcount].
  { cbn [mbind result_bind]. eexists. reflexivity. }
  pose proof (fdiv_sign count total Hcount Htotal) as Hq.
  rewrite bool_decide_eq_true_2 in Hq by lia.
  destruct count as [|m|m]; [done| |];
    (destruct (fdiv _ _) as [s|s| |s mq eq]; [| |done|]; subst s;
     cbn [mbind result_bind]; eexists; reflexivity).
Qed.

Lemma sum_floats_raises {A} (f : A → result float) (acc : float) (xs : list A)
    (x : A) (e : exn) :
  x ∈ xs → f x = Raise e →
  ∃ y e', y ∈ xs ∧ f y = Raise e' ∧ sum_floats f acc xs = Raise e'.
Proof.
  intros Hx Hfx. revert acc. induction xs as [|z xs IH]; intros acc.
  - by apply elem_of_nil in Hx.
  - cbn [sum_floats]. destruct (f z) as [v|e'] eqn:Hz.
    + apply elem_of_cons in Hx as [->|Hx]; [congruence|].
      destruct (IH Hx (fadd acc v)) as (y & e' & Hy & Hfy & Hsum).
      exists y, e'. split; [by apply list_elem_of_further|done].
    + exists z, e'. split; [apply list_elem_of_here|done].
Qed.

(** ** Particular mappings *)

Lemma calculate_entropy_single_entry (L : Libm) (file : string) (count : Z) :
  count ≠ 0 →
  log2 L one = zero →
  calculate_entropy L [(file, count)] = Ok (Float (S754_zero true)).
Proof.
  intros Hcount Hlog. unfold calculate_entropy. cbv zeta.
  cbn [fmap list_fmap snd].
  replace (py_sum [count]) with count by (unfold py_sum; cbn; lia).
  rewrite (proj2 (Z.eqb_neq count 0)) by done.
  unfold py_sum_gen. cbn [sum_floats]. unfold entropy_term.
  rewrite py_truediv_same by done. cbn [mbind result_bind].
  unfold math_log2. cbv zeta. cbn [m_log2 one]. rewrite Hlog. reflexivity.
Qed.

(** Eleven equal counts, with the values of [log2] of the sample library. *)
Lemma calculate_entropy_eleven_files :
  calculate_entropy sample_libm eleven_files =
    Ok (Float (S754_finite false 7789947474304324 (-51))) ∧
  math_log2 sample_libm (S754_finite false 6192449487634432 (-49)) =
    Ok (S754_finite false 7789947474304322 (-51)).
Proof. split; vm_compute; reflexivity. Qed.

(** The quotient [1 / (2^1075 + 1)] is below half of the least positive
    float and rounds to [0.0]; [math.log2] rejects it, whatever the
    library. *)
Lemma calculate_entropy_lopsided (L : Libm) :
  calculate_entropy L lopsided = Raise ValueError.
Proof.
  assert (py_truediv (2 ^ 1075) (2 ^ 1075 + 1) = Ok one) as Hbig
    by (vm_compute; reflexivity).
  assert (py_truediv 1 (2 ^ 1075 + 1) = Ok zero) as Hsmall
    by (vm_compute; reflexivity).
  unfold calculate_entropy, lopsided. cbv zeta. cbn [fmap list_fmap snd].
  replace (py_sum [2 ^ 1075; 1]) with (2 ^ 1075 + 1)
    by (vm_compute; reflexivity).
  replace (2 ^ 1075 + 1 =? 0) with false by (vm_compute; reflexivity).
  unfold py_sum_gen. cbn [sum_floats]. unfold entropy_term.
  rewrite Hbig, Hsmall. cbn [mbind result_bind].
  destruct (math_log2 L one) as [l|e] eqn:Hl.
  - reflexivity.
  - cbn [mbind result_bind]. f_equal. by eapply math_log2_errors.
Qed.
End Binary64Facts.

(** * The estimator and its use by the pipeline *)

(** Eleven equal counts in binary64: the value returned is one unit in the
    last place above [log2] of eleven. *)
Lemma eleven_files_not_log2 :
  ∃ x y,
    Binary64.calculate_entropy Binary64.sample_libm Binary64.eleven_files =
      Ok (Binary64.Float x) ∧
    Binary64.math_log2 Binary64.sample_libm
      (SpecFloat.S754_finite false 6192449487634432 (-49)) = Ok y ∧
    x = SpecFloat.S754_finite false 7789947474304324 (-51) ∧
    y = SpecFloat.S754_finite false 7789947474304322 (-51) ∧
    x ≠ y.
Proof.
  destruct calculate_entropy_eleven_files as [Hentropy Hlog].
  eexists _, _. split; [exact Hentropy|]. split; [exact Hlog|].
  split; [reflexivity|]. split; [reflexivity|]. intros H; discriminate H.
Qed.







(** ** What the estimator raises *)

Lemma sum_floats_raise_inv {A} (f : A → result Binary64.float)
    (acc : Binary64.float) (xs : list A) (e : exn) :
  Binary64.sum_floats f acc xs = Raise e → ∃ x, x ∈ xs ∧ f x = Raise e.
Proof.
  revert acc. induction xs as [|z xs IH]; intros acc; cbn [Binary64.sum_floats].
  - intros H; discriminate H.
  - destruct (f z) as [v|e'] eqn:Hz.
    + cbn [mbind result_bind]. intros H. destruct (IH _ H) as (x & Hx & Hfx).
      exists x. split; [by apply list_elem_of_further|done].
    + intros H. apply Raise_inj in H as <-.
      exists z. split; [apply list_elem_of_here|done].
Qed.

(** In binary64 [calculate_entropy] never raises [ZeroDivisionError]: what
    it raises is the [ValueError] of [math.log2] or the [OverflowError] of a
    quotient too large for a float.  When the total is not 0 and some count
    is 0 or has the sign opposite to the total, it does raise. *)
Theorem calculate_entropy_rejects_nonpositive_shares (L : Binary64.Libm)
    (change_counts : list (string * Z)) :
  (∀ e, Binary64.calculate_entropy L change_counts = Raise e →
        e = ValueError ∨ e = OverflowError) ∧
  (py_sum change_counts.*2 ≠ 0 →
   (∃ file count, (file, count) ∈ change_counts ∧
                  count * py_sum change_counts.*2 <= 0) →
   ∃ e, Binary64.calculate_entropy L change_counts = Raise e).
Proof.
  unfold Binary64.calculate_entropy. cbv zeta.
  destruct (py_sum change_counts.*2 =? 0) eqn:Htotal.
  { split; [intros e H; discriminate H|].
    intros Hne. by apply Z.eqb_eq in Htotal. }
  apply Z.eqb_neq in Htotal. unfold Binary64.py_sum_gen. split.
  - intros e. destruct (change_counts.*2) as [|count counts] eqn:Hcounts;
      [intros H; discriminate H|].
    destruct (Binary64.sum_floats _ _ _) as [s|e'] eqn:Hsum;
      cbn [mbind result_bind]; [intros H; discriminate H|].
    intros H. apply Raise_inj in H as <-.
    apply sum_floats_raise_inv in Hsum as (x & _ & Hx).
    by eapply entropy_term_errors.
  - intros _ (file & count & Hin & Hsign).
    assert (count ∈ change_counts.*2) as Hcount.
    { apply list_elem_of_fmap. by exists (file, count). }
    destruct (entropy_term_nonpositive L _ count Htotal Hsign) as [e He].
    destruct (sum_floats_raises _ Binary64.zero _ _ _ Hcount He)
      as (y & e' & _ & _ & Hsum).
    destruct (change_counts.*2) as [|c0 counts]; [by apply elem_of_nil in Hcount|].
    rewrite Hsum. by exists e'.
Qed.

(** A file that was not changed beside one changed three times. *)
Lemma calculate_entropy_rejects_nonpositive_shares_witness :
  ∃ e, Binary64.calculate_entropy Binary64.sample_libm [("a", 3); ("b", 0)] =
       Raise e.
Proof.
  apply (calculate_entropy_rejects_nonpositive_shares Binary64.sample_libm
           [("a", 3); ("b", 0)]).
  - vm_compute. discriminate.
  - exists "b", 0. split; [apply list_elem_of_further, list_elem_of_here|].
    vm_compute. discriminate.
Defined.
